(** * Eigenvector centrality (networkx/algorithms/centrality/eigenvector.py)

    A shallow embedding of [eigenvector_centrality] (power iteration) and
    [eigenvector_centrality_numpy] (eigen-decomposition per connected
    component), and the properties of both that the specification states.

    Numbers.  The source computes with Python floats (IEEE binary64) and
    with the integers [0] and [1] that Python promotes to floats.  The code
    is embedded once, over an interface [PyNum] of the operations it uses,
    and read at two instances: [float_num], the binary64 numbers of the
    kernel, on which the code runs as it does in Python, and [real_num], the
    real numbers, an idealisation without rounding, underflow or overflow.
    A statement over [PyNum] holds at every instance, and so of the code as
    it runs in binary64; the statements made on the reals only are marked
    as such.

    Objects.  A Python dict is an association list in iteration order (sums
    of floats depend on the order); the dicts the caller can see live in a
    store indexed by location, so that [x=nstart] is an alias.  The order
    in which a dict built by the code lists its keys is that of their
    insertion; a Python 2 dict lists them by hash slot, so this order is a
    choice of the embedding, and the statements on the keys of a result
    speak of the keys up to their order. *)

From Stdlib Require Import String Ascii PrimFloat Reals Lra Lia.
From stdpp Require Import base list.

Set Default Proof Using "Type".

(** ** Numbers *)

Class PyNum (T : Type) := {
  zero : T;                       (* the int [0], promoted *)
  one : T;                        (* the int [1] and the float [1.0] *)
  add : T -> T -> T;
  sub : T -> T -> T;
  mul : T -> T -> T;
  fdiv : T -> T -> T;             (* the quotient once the divisor is non-zero *)
  fabs : T -> T;
  fsqrt : T -> T;
  flt : T -> T -> bool;           (* [<] *)
  feq : T -> T -> bool;           (* [==] *)
  of_nat : nat -> T;              (* [float(n)] of an int [n >= 0] *)
  pow_overflows : T -> bool       (* does [v**2] leave the range of [T]? *)
}.

Module FloatNum.
Definition of_nat (n : nat) : float :=
  Nat.iter n (fun r => PrimFloat.add r 1%float) 0%float.

(* [float_pow]: a finite base whose square is infinite is an overflow. *)
Definition pow_overflows (v : float) : bool :=
  PrimFloat.is_finite v && PrimFloat.is_infinity (PrimFloat.mul v v).
End FloatNum.

#[export] Instance float_num : PyNum float := {|
  zero := 0%float;
  one := 1%float;
  add := PrimFloat.add;
  sub := PrimFloat.sub;
  mul := PrimFloat.mul;
  fdiv := PrimFloat.div;
  fabs := PrimFloat.abs;
  fsqrt := PrimFloat.sqrt;
  flt := PrimFloat.ltb;
  feq := PrimFloat.eqb;
  of_nat := FloatNum.of_nat;
  pow_overflows := FloatNum.pow_overflows
|}.

Module RealNum.
Definition ltb (x y : R) : bool := if Rlt_dec x y then true else false.
Definition eqb (x y : R) : bool := if Req_dec_T x y then true else false.
(* the sum of a list, for the statements on the reals *)
Definition sum (l : list R) : R := fold_right Rplus 0%R l.
End RealNum.

#[export] Instance real_num : PyNum R := {|
  zero := 0%R;
  one := 1%R;
  add := Rplus;
  sub := Rminus;
  mul := Rmult;
  fdiv := Rdiv;
  fabs := Rabs;
  fsqrt := sqrt;
  flt := RealNum.ltb;
  feq := RealNum.eqb;
  of_nat := INR;
  pow_overflows := fun _ => false
|}.

(* What the rounds on a graph with no edge need of the numbers: the
   operations on [0] and [1] they meet.  Binary64 and the reals both have
   them. *)
Record zero_laws (T : Type) `{PyNum T} : Prop := {
  add_zero_zero : add zero zero = zero;
  mul_zero_zero : mul zero zero = zero;
  mul_zero_one : mul zero one = zero;
  sub_zero_zero : sub zero zero = zero;
  fabs_zero : fabs zero = zero;
  fsqrt_zero : fsqrt zero = zero;
  feq_zero_zero : feq zero zero = true;
  flt_zero_zero : flt zero zero = false;
  pow_zero : pow_overflows zero = false
}.

(** ** Exceptions and results *)

(* Nodes and store locations are numbers; a dict is an association list
   in iteration order, a store the list of the dicts allocated so far. *)
Abbreviation node := nat (only parsing).
Abbreviation loc := nat (only parsing).
Abbreviation dict T := (list (nat * T)) (only parsing).
Abbreviation store T := (list (list (nat * T))) (only parsing).

Inductive exn :=
| Exception_ (msg : string)        (* [raise Exception(msg)] *)
| NetworkXError (msg : string)
| ImportError (msg : string)
| ZeroDivisionError
| OverflowError
| ValueError
| KeyError (k : node)
| IndexError
| InvalidReference (l : loc).      (* no Python counterpart: a location outside the store *)

Inductive result (A : Type) :=
| Ok (a : A)
| Raise (e : exn).
Arguments Ok {A} a.
Arguments Raise {A} e.

Definition rbind {A B} (r : result A) (f : A -> result B) : result B :=
  match r with Ok a => f a | Raise e => Raise e end.

Fixpoint rmap_m {A B} (f : A -> result B) (xs : list A) : result (list B) :=
  match xs with
  | [] => Ok []
  | x :: xs' => rbind (f x) (fun y => rbind (rmap_m f xs') (fun ys => Ok (y :: ys)))
  end.

(** ** Graphs *)

(* [type(G)]: one of the four graph classes of networkx, or a class
   derived from one of them. *)
Inductive graph_class :=
| Graph | DiGraph | MultiGraph | MultiDiGraph
| Subclass (base : graph_class).

(* [type(G) == networkx.MultiGraph or type(G) == networkx.MultiDiGraph]:
   the comparison of the types themselves, which a derived class fails. *)
Definition is_multigraph_class (c : graph_class) : bool :=
  match c with MultiGraph | MultiDiGraph => true | _ => false end.


(* [adj] is the dict of dicts behind [G[n][nbr]]: for each node, in the
   order [for n in G] visits them, its neighbours with what the key
   ['weight'] finds in [G[n][nbr]], if anything. *)
Record graph (T : Type) := {
  gclass : graph_class;
  adj : list (node * list (node * option T))
}.
Arguments gclass {T} g.
Arguments adj {T} g.

Definition nodes {T} (G : graph T) : list node := (adj G).*1.
Definition number_of_nodes {T} (G : graph T) : nat := length (adj G).

Fixpoint assoc {A} (k : node) (d : list (node * A)) : option A :=
  match d with
  | [] => None
  | (k', v) :: d' => if Nat.eqb k k' then Some v else assoc k d'
  end.


(* [G[n]] *)
Definition graph_getitem {T} (G : graph T) (n : node) : result (list (node * option T)) :=
  match assoc n (adj G) with Some nbrs => Ok nbrs | None => Raise (KeyError n) end.

(** ** Dicts, the store, and the monad of the code *)

Section Model.
Context {T : Type} `{PyNum T}.

Definition keys (d : dict T) : list node := d.*1.
Definition values (d : dict T) : list T := d.*2.
Definition dict_get (k : node) (d : dict T) : option T := assoc k d.

(* [d[k] = v]: an existing key keeps its place; a new one goes last (by
   insertion, where a Python 2 dict places it by its hash). *)
Fixpoint dict_set (k : node) (v : T) (d : dict T) : dict T :=
  match d with
  | [] => [(k, v)]
  | (k', v') :: d' => if Nat.eqb k k' then (k, v) :: d' else (k', v') :: dict_set k v d'
  end.

(* [dict(pairs)] and [dict.fromkeys(ks, v)], the keys in the order given *)
Definition dict_of_list (ps : list (node * T)) : dict T :=
  fold_left (fun d p => dict_set p.1 p.2 d) ps [].
Definition fromkeys (ks : list node) (v : T) : dict T :=
  dict_of_list (map (fun k => (k, v)) ks).

(* [e.get('weight',1)] *)
Definition get_weight (data : option T) : T :=
  match data with Some w => w | None => one end.

(* [sum(l)]: from the int [0], left to right. *)
Definition pysum (l : list T) : T := fold_left add l zero.

(* [x / y]: Python raises where IEEE division would give inf or nan. *)
Definition pydiv (x y : T) : result T :=
  if feq y zero then Raise ZeroDivisionError else Ok (fdiv x y).
(* [v**2] *)
Definition pysq (v : T) : result T :=
  if pow_overflows v then Raise OverflowError else Ok (mul v v).
(* [math.sqrt(v)] *)
Definition pysqrt (v : T) : result T :=
  if flt v zero then Raise ValueError else Ok (fsqrt v).

(* A computation reads and writes the store; an exception leaves the
   store as it was when it was raised. *)
Definition M (A : Type) : Type := store T -> result A * store T.

Definition ret {A} (a : A) : M A := fun h => (Ok a, h).
Definition raise {A} (e : exn) : M A := fun h => (Raise e, h).
Definition lift {A} (r : result A) : M A := fun h => (r, h).
Definition bind {A B} (m : M A) (f : A -> M B) : M B :=
  fun h => match m h with
           | (Ok a, h') => f a h'
           | (Raise e, h') => (Raise e, h')
           end.

Notation "'let*' x ':=' m 'in' k" := (bind m (fun x => k))
  (at level 10, x pattern, m at level 100, k at level 200).
Notation "m ';;' k" := (bind m (fun _ => k))
  (at level 100, k at level 200, right associativity).

(* [try: m  except ZeroDivisionError: handler] *)
Definition try_except_ZeroDivisionError {A} (m handler : M A) : M A :=
  fun h => match m h with
           | (Raise ZeroDivisionError, h') => handler h'
           | r => r
           end.

Definition alloc (d : dict T) : M loc := fun h => (Ok (length h), h ++ [d]).
Definition deref (l : loc) : M (dict T) :=
  fun h => match h !! l with
           | Some d => (Ok d, h)
           | None => (Raise (InvalidReference l), h)
           end.
(* [x[k]] *)
Definition getitem (l : loc) (k : node) : M T :=
  let* d := deref l in
  match dict_get k d with Some v => ret v | None => raise (KeyError k) end.
(* [x[k] = v] *)
Definition setitem (l : loc) (k : node) (v : T) : M unit :=
  fun h => match h !! l with
           | Some d => (Ok tt, <[l := dict_set k v d]> h)
           | None => (Raise (InvalidReference l), h)
           end.
Definition dict_keys (l : loc) : M (list node) := let* d := deref l in ret (keys d).
Definition dict_values (l : loc) : M (list T) := let* d := deref l in ret (values d).

Fixpoint for_each {A} (xs : list A) (body : A -> M unit) : M unit :=
  match xs with
  | [] => ret tt
  | x :: xs' => body x ;; for_each xs' body
  end.

Fixpoint map_m {A B} (f : A -> M B) (xs : list A) : M (list B) :=
  match xs with
  | [] => ret []
  | x :: xs' => let* y := f x in let* ys := map_m f xs' in ret (y :: ys)
  end.

(* [m] leaves every object but the one at [x] as it was. *)
Definition only_writes {A} (x : loc) (m : M A) : Prop :=
  forall h, x < length h -> exists d, (m h).2 = <[x := d]> h.

(* [m] changes nothing. *)
Definition read_only {A} (m : M A) : Prop := forall h, (m h).2 = h.

(** ** [eigenvector_centrality] *)

Definition multigraph_message : string :=
  "eigenvector_centrality() not defined for multigraphs.".

(* The text between the triple quotes of lines 100-101, as it is. *)
Definition failure_message : string :=
  ("eigenvector_centrality(): " ++ String (ascii_of_nat 10)
     ("power iteration failed to converge in %d iterations."
        ++ String (ascii_of_nat 34) "%(i+1))"))%string.

(* [dict([(n,1.0/len(G)) for n in G])] *)
Definition default_start (G : graph T) : M loc :=
  let* items := map_m (fun n => let* v := lift (pydiv one (of_nat (length (adj G)))) in
                                ret (n, v)) (nodes G) in
  alloc (dict_of_list items).

(* [for k in x: x[k]*=s] *)
Definition scale (x : loc) (s : T) : M unit :=
  let* ks := dict_keys x in
  for_each ks (fun k => let* v := getitem x k in setitem x k (mul v s)).

(* [for n in x: for nbr in G[n]: x[n]+=xlast[nbr]*G[n][nbr].get('weight',1)] *)
Definition multiply (G : graph T) (xlast x : loc) : M unit :=
  let* ks := dict_keys x in
  for_each ks (fun n =>
    let* nbrs := lift (graph_getitem G n) in
    for_each nbrs (fun e =>
      let* v := getitem x n in
      let* a := getitem xlast e.1 in
      setitem x n (add v (mul a (get_weight e.2))))).

(* [try: s=1.0/sqrt(sum(v**2 for v in x.values()))
    except ZeroDivisionError: s=1.0] *)
Definition norm_factor (x : loc) : M T :=
  try_except_ZeroDivisionError
    (let* vs := dict_values x in
     let* sq := lift (rmap_m pysq vs) in
     let* r := lift (pysqrt (pysum sq)) in
     lift (pydiv one r))
    (ret one).

(* [sum([abs(x[n]-xlast[n]) for n in x])] *)
Definition error_term (x xlast : loc) : M T :=
  let* ks := dict_keys x in
  let* ds := map_m (fun n => let* a := getitem x n in
                             let* b := getitem xlast n in
                             ret (fabs (sub a b))) ks in
  ret (pysum ds).

(* One round of [for i in range(max_iter)]: the new vector and whether
   the convergence test held. *)
Definition iteration (G : graph T) (nnodes : nat) (tol : T) (xlast : loc) : M (loc * bool) :=
  let* ks := dict_keys xlast in
  let* x := alloc (fromkeys ks zero) in
  multiply G xlast x ;;
  let* s := norm_factor x in
  scale x s ;;
  let* err := error_term x xlast in
  ret (x, flt err (mul (of_nat nnodes) tol)).

Fixpoint power_iterations (G : graph T) (nnodes : nat) (tol : T)
    (rounds : nat) (x : loc) : M loc :=
  match rounds with
  | 0 => raise (NetworkXError failure_message)
  | S rounds' =>
      let* r := iteration G nnodes tol x in
      if r.2 then ret r.1 else power_iterations G nnodes tol rounds' r.1
  end.

Definition eigenvector_centrality (G : graph T) (max_iter : nat) (tol : T)
    (nstart : option loc) : M loc :=
  if is_multigraph_class (gclass G) then raise (Exception_ multigraph_message) else
  let* x := match nstart with
            | None => default_start G
            | Some l => ret l
            end in
  let* vs := dict_values x in
  let* s := lift (pydiv one (pysum vs)) in
  scale x s ;;
  let nnodes := number_of_nodes G in
  power_iterations G nnodes tol max_iter x.

(** ** The iteration in the words of the specification

    One round is a matrix-vector product, a renormalisation by the
    Euclidean norm (scale factor 1 when the norm is exactly zero) and an
    L1 distance to the previous vector; these read and build dict values
    and touch no store. *)

Definition scale_dict (s : T) (d : dict T) : dict T := map (fun p => (p.1, mul p.2 s)) d.

(* weight(n, b): the weight of the edge from n to b, defaulting to 1 if
   unspecified *)
Definition weight (e : node * option T) : T := default one e.2.

(* previous[b] * weight(n, b) for the neighbour b of an edge *)
Definition term (previous : dict T) (e : node * option T) : result T :=
  match dict_get e.1 previous with
  | Some a => Ok (mul a (weight e))
  | None => Raise (KeyError e.1)
  end.

(* the sum over the neighbours b of previous[b] * weight(n, b) *)
Definition weighted_sum (previous : dict T) (nbrs : list (node * option T)) : result T :=
  rbind (rmap_m (term previous) nbrs) (fun terms => Ok (pysum terms)).

Definition matvec (G : graph T) (previous : dict T) : result (dict T) :=
  rmap_m (fun n => rbind (graph_getitem G n) (fun nbrs =>
                   rbind (weighted_sum previous nbrs) (fun v => Ok (n, v))))
         (keys previous).

Definition sum_of_squares (vs : list T) : result T :=
  rbind (rmap_m pysq vs) (fun sq => Ok (pysum sq)).

Definition euclidean_norm (d : dict T) : result T :=
  rbind (sum_of_squares (values d)) pysqrt.

Definition scale_factor (d : dict T) : result T :=
  rbind (euclidean_norm d) (fun r => if feq r zero then Ok one else Ok (fdiv one r)).

Definition l1_distance (current previous : dict T) : T :=
  pysum (zip_with (fun a b => fabs (sub a b)) (values current) (values previous)).

Definition spec_iteration (G : graph T) (nnodes : nat) (tol : T) (previous : dict T)
    : result (dict T * bool) :=
  rbind (matvec G previous) (fun y =>
  rbind (scale_factor y) (fun s =>
  let current := scale_dict s y in
  Ok (current, flt (l1_distance current previous) (mul (of_nat nnodes) tol)))).

Fixpoint spec_power (G : graph T) (nnodes : nat) (tol : T) (rounds : nat)
    (previous : dict T) : result (dict T) :=
  match rounds with
  | 0 => Raise (NetworkXError failure_message)
  | S rounds' =>
      rbind (spec_iteration G nnodes tol previous) (fun r =>
      if r.2 then Ok r.1 else spec_power G nnodes tol rounds' r.1)
  end.

(* A graph with no edge: every node has no neighbour. *)
Definition edgeless (G : graph T) : Prop := Forall (fun p => p.2 = []) (adj G).

(* the all-zero vector over the keys [ks] *)
Definition zeros (ks : list node) : dict T := map (fun k => (k, zero)) ks.

(* The exceptions the rounds can raise. *)
Definition power_exn (e : exn) : Prop :=
  match e with
  | KeyError _ | OverflowError | ValueError => True
  | NetworkXError msg => msg = failure_message
  | _ => False
  end.

(* every node starts at 1/n *)
Definition uniform_start (G : graph T) : result (dict T) :=
  rmap_m (fun n => rbind (pydiv one (of_nat (length (adj G)))) (fun v => Ok (n, v)))
         (nodes G).

(* the start vector rescaled so that its entries sum to 1, then the rounds *)
Definition spec_centrality (G : graph T) (max_iter : nat) (tol : T) (start : dict T)
    : result (dict T) :=
  rbind (pydiv one (pysum (values start))) (fun s =>
  spec_power G (number_of_nodes G) tol max_iter (scale_dict s start)).

(** ** [eigenvector_centrality_numpy]

    The dicts of this function are its own and it returns a new one, so
    it is embedded over dict values.  What it calls outside the file is
    taken as given: whether [import numpy] succeeds, networkx's
    [connected_components], and numpy's [linalg.eig] and [argsort]. *)

Definition matrix := list (list T).

(** Modelled from the spec: [networkx.adj_matrix(G,nodelist)], which is
    not in this file; "the dense weighted adjacency matrix restricted to
    that ordering", an absent edge being 0 and an edge without weight 1. *)
Definition adj_matrix (G : graph T) (nodelist : list node) : matrix :=
  map (fun u => map (fun v => match assoc u (adj G) with
                              | Some nbrs => match assoc v nbrs with
                                             | Some data => get_weight data
                                             | None => zero
                                             end
                              | None => zero
                              end) nodelist) nodelist.

(* [m[:,j]] *)
Definition column (j : nat) (m : matrix) : result (list T) :=
  rmap_m (fun row : list T => match row !! j with
                              | Some v => Ok v
                              | None => Raise IndexError
                              end) m.

(* [v.max()] *)
Definition np_max (v : list T) : result T :=
  match v with
  | [] => Raise ValueError
  | a :: v' => Ok (fold_left (fun m b => if flt m b then b else m) v' a)
  end.

(* [np.sign(x)]: -1, 0 or 1, and a nan as it is *)
Definition np_sign (x : T) : T :=
  if flt x zero then sub zero one
  else if flt zero x then one
  else if feq x zero then zero else x.

(* [np.linalg.norm(vs)] *)
Definition np_norm (vs : list T) : T := fsqrt (pysum (map (fun v => mul v v) vs)).

(* [d.update(pairs)] *)
Definition dict_update (d : dict T) (ps : list (node * T)) : dict T :=
  fold_left (fun d p => dict_set p.1 p.2 d) ps d.

Definition numpy_required_message : string :=
  "eigenvector_centrality_numpy() requires NumPy: http://scipy.org/".
Definition numpy_multigraph_message : string :=
  "eigenvector_centrality_numpy() not defined for multigraphs.".

Section Numpy.
Variable numpy_available : bool.
Variable connected_components : graph T -> list (list node).
Variable eig : matrix -> list T * matrix.
Variable argsort : list T -> list nat.

(* lines 152-158: the pairs one component writes into [centrality] *)
Definition component_vector (G : graph T) (nodelist : list node)
    : result (list (node * T)) :=
  let A := adj_matrix G nodelist in
  let ee := eig A in
  let ind := rev (argsort ee.1) in
  rbind (match ind !! 0 with Some j => Ok j | None => Raise IndexError end) (fun j =>
  rbind (column j ee.2) (fun largest =>
  rbind (np_max largest) (fun m =>
  Ok (zip nodelist (map (fun v => mul v (np_sign m)) largest))))).

Fixpoint components_loop (G : graph T) (comps : list (list node)) (centrality : dict T)
    : result (dict T) :=
  match comps with
  | [] => Ok centrality
  | nodelist :: comps' =>
      rbind (component_vector G nodelist) (fun ps =>
      components_loop G comps' (dict_update centrality ps))
  end.

Definition eigenvector_centrality_numpy (G : graph T) : result (dict T) :=
  if negb numpy_available then Raise (ImportError numpy_required_message) else
  if is_multigraph_class (gclass G) then Raise (Exception_ numpy_multigraph_message) else
  let centrality := fromkeys (nodes G) zero in
  rbind (components_loop G (connected_components G) centrality) (fun centrality =>
  let norm := np_norm (values centrality) in
  Ok (dict_of_list (map (fun p => (p.1, fdiv p.2 norm)) centrality))).
End Numpy.

End Model.

Arguments M : clear implicits.

Notation "'let*' x ':=' m 'in' k" := (bind m (fun x => k))
  (at level 10, x pattern, m at level 100, k at level 200).
Notation "m ';;' k" := (bind m (fun _ => k))
  (at level 100, k at level 200, right associativity).



(** ** Inputs used below *)

Module Inputs.
(* [1.0e-6], the default [tol], and a much smaller tolerance *)
Definition tol_default : float := 0x1.0c6f7a0b5ed8dp-20%float.
Definition tol_tiny : float := 0x1p-40%float.

Definition undirected {T} (a : list (node * list (node * option T))) : graph T :=
  {| gclass := Graph; adj := a |}.

(* [nx.Graph()] *)
Definition empty_graph {T} : graph T := undirected [].
(* one node, no edge *)
Definition single_node {T} : graph T := undirected [(0, [])].
(* [nx.path_graph(4)] *)
Definition path4 {T} : graph T :=
  undirected [(0, [(1, None)]); (1, [(0, None); (2, None)]);
              (2, [(1, None); (3, None)]); (3, [(2, None)])].
(* the edge 0-1 and the isolated node 2 *)
Definition edge_and_isolated {T} : graph T :=
  undirected [(0, [(1, None)]); (1, [(0, None)]); (2, [])].
(* the start vector of [path4]: every node at 1/4 *)
Definition uniform4 : dict float :=
  [(0, 0.25%float); (1, 0.25%float); (2, 0.25%float); (3, 0.25%float)].
(* start vectors a caller supplies: every node at 2, and one node at 1 *)
Definition twos4 : dict float :=
  [(0, 2%float); (1, 2%float); (2, 2%float); (3, 2%float)].
Definition one1 : dict float := [(0, 1%float)].
(* the path 0-1-2 with the weights 2 and 0.5, and a start vector for it *)
Definition weighted_path3 : graph float :=
  undirected [(0, [(1, Some 2%float)]);
              (1, [(0, Some 2%float); (2, Some 0.5%float)]);
              (2, [(1, Some 0.5%float)])].
Definition start3 : dict float := [(0, 0.25%float); (1, 0.5%float); (2, 0.25%float)].
(* two nodes and no edge, and a start vector for them *)
Definition isolated2 {T} : graph T := undirected [(0, []); (1, [])].
Definition uneven2 : dict float := [(0, 3%float); (1, (-2)%float)].
(* on the reals: the loop 0 -> 0 of weight 3 and the edge 1 -> 0 of
   weight 4, and the start vector with both nodes at 1 *)
Definition arcs34 : graph R :=
  {| gclass := DiGraph; adj := [(0, [(0, Some 3%R)]); (1, [(0, Some 4%R)])] |}.
Definition ones2 : dict R := [(0, 1%R); (1, 1%R)].

(* What the functions outside the file return on these inputs:
   [connected_components] lists the components, the largest first;
   [np.linalg.eig] of [[0]] is the eigenvalue 0 with the eigenvector [1],
   and of [[0,1],[1,0]] the eigenvalues 1 and -1 with the unit
   eigenvectors (r, r) and (-r, r), r the square root of 1/2, as columns;
   [argsort] lists the indices by increasing value. *)
Definition components {T} (G : graph T) : list (list node) :=
  match nodes G with
  | [] => []
  | [0; 1; 2] => [[0; 1]; [2]]
  | ns => [ns]
  end.
Definition eig_float (A : list (list float)) : list float * list (list float) :=
  let r := PrimFloat.sqrt 0.5%float in
  match A with
  | [[_]] => ([0%float], [[1%float]])
  | _ => ([1%float; (-1)%float], [[r; PrimFloat.opp r]; [r; r]])
  end.
Definition eig_real (A : list (list R)) : list R * list (list R) :=
  let r := sqrt (1 / 2) in
  match A with
  | [[_]] => ([0%R], [[1%R]])
  | _ => ([1%R; (-1)%R], [[r; (- r)%R]; [r; r]])
  end.
Definition argsort_of {T} (l : list T) : list nat :=
  match l with
  | [_] => [0]
  | _ => [1; 0]
  end.

End Inputs.

(** ** Notions used in the further properties *)

Section Notions.
Context {T : Type} `{PyNum T}.

(* The keys [ks] are nodes of [G] and hold the neighbours of each of them. *)
Definition closed_under (G : graph T) (ks : list node) : Prop :=
  forall k, k ∈ ks ->
    exists nbrs, graph_getitem G k = Ok nbrs /\ forall e, e ∈ nbrs -> e.1 ∈ ks.

(* The start vector of a call: the default one, or the caller's. *)
Definition start_keys (G : graph T) (nstart : option loc) (h : store T) : option (list node) :=
  match nstart with
  | None => Some (nodes G)
  | Some l0 => keys <$> h !! l0
  end.
End Notions.

(* No edge of the graph has a negative weight. *)
Definition nonneg_weights (G : graph R) : Prop :=
  Forall (fun p => Forall (fun e => (0 <= get_weight e.2)%R) p.2) (adj G).

(** * Properties *)

(** ** Association lists and dicts *)

Lemma assoc_app_notin {A} (k : node) (d1 d2 : list (node * A)) :
  k ∉ d1.*1 -> assoc k (d1 ++ d2) = assoc k d2.
Proof.
  induction d1 as [|[k' v'] d1 IH]; simpl; intros Hk; [done|].
  apply not_elem_of_cons in Hk as [Hne Hk].
  destruct (Nat.eqb_spec k k'); [done|]. by apply IH.
Qed.

Lemma assoc_head {A} (k : node) (v : A) (d : list (node * A)) :
  assoc k ((k, v) :: d) = Some v.
Proof. simpl. by rewrite Nat.eqb_refl. Qed.

Lemma assoc_Some_elem {A} (k : node) (v : A) (d : list (node * A)) :
  assoc k d = Some v -> (k, v) ∈ d.
Proof.
  induction d as [|[k' v'] d IH]; simpl; [done|].
  destruct (Nat.eqb_spec k k') as [->|]; intros E.
  - injection E as ->. apply list_elem_of_here.
  - apply list_elem_of_further. by apply IH.
Qed.

Lemma assoc_is_Some {A} (k : node) (d : list (node * A)) :
  k ∈ d.*1 -> is_Some (assoc k d).
Proof.
  induction d as [|[k' v'] d IH]; simpl; intros Hk.
  - by apply elem_of_nil in Hk.
  - destruct (Nat.eqb_spec k k'); [by eexists|].
    apply elem_of_cons in Hk as [?|?]; [done|]. by apply IH.
Qed.

Lemma assoc_nodup_elem {A} (k : node) (v : A) (d : list (node * A)) :
  NoDup d.*1 -> (k, v) ∈ d -> assoc k d = Some v.
Proof.
  induction d as [|[k' v'] d IH]; simpl; intros Hnd Hin.
  - by apply elem_of_nil in Hin.
  - apply NoDup_cons in Hnd as [Hk' Hnd].
    apply elem_of_cons in Hin as [E|Hin].
    + injection E as -> ->. by rewrite Nat.eqb_refl.
    + destruct (Nat.eqb_spec k k') as [->|]; [|by apply IH].
      exfalso. apply Hk'. apply list_elem_of_fmap. by exists (k', v).
Qed.

Section DictFacts.
Context {T : Type} `{PyNum T}.
Implicit Types (d : dict T) (k : node) (v : T).

Lemma dict_set_app_notin k v d1 d2 :
  k ∉ keys d1 -> dict_set k v (d1 ++ d2) = d1 ++ dict_set k v d2.
Proof.
  induction d1 as [|[k' v'] d1 IH]; simpl; intros Hk; [done|].
  apply not_elem_of_cons in Hk as [Hne Hk].
  destruct (Nat.eqb_spec k k'); [done|]. by rewrite IH.
Qed.

Lemma dict_set_head k v v' d : dict_set k v' ((k, v) :: d) = (k, v') :: d.
Proof. simpl. by rewrite Nat.eqb_refl. Qed.

Lemma dict_set_fresh k v d : k ∉ keys d -> dict_set k v d = d ++ [(k, v)].
Proof.
  intros Hk. rewrite <- (app_nil_r d) at 1.
  by rewrite dict_set_app_notin.
Qed.

Lemma dict_get_set_eq k v d : dict_get k (dict_set k v d) = Some v.
Proof.
  unfold dict_get. induction d as [|[k' v'] d IH]; simpl.
  - by rewrite Nat.eqb_refl.
  - destruct (Nat.eqb_spec k k') as [->|Hne]; simpl.
    + by rewrite Nat.eqb_refl.
    + destruct (Nat.eqb_spec k k'); [done|]. apply IH.
Qed.

Lemma dict_get_set_ne k k' v d : k <> k' -> dict_get k' (dict_set k v d) = dict_get k' d.
Proof.
  unfold dict_get. intros Hne. induction d as [|[k0 v0] d IH]; simpl.
  - destruct (Nat.eqb_spec k' k); [congruence|done].
  - destruct (Nat.eqb_spec k k0) as [->|]; simpl.
    + destruct (Nat.eqb_spec k' k0); [congruence|done].
    + by rewrite IH.
Qed.

Lemma dict_set_set k v v' d : dict_set k v' (dict_set k v d) = dict_set k v' d.
Proof.
  induction d as [|[k' v0] d IH]; simpl.
  - by rewrite Nat.eqb_refl.
  - destruct (Nat.eqb_spec k k') as [->|Hne]; simpl.
    + by rewrite Nat.eqb_refl.
    + destruct (Nat.eqb_spec k k'); [done|]. by rewrite IH.
Qed.

Lemma keys_dict_set k v d : k ∈ keys d -> keys (dict_set k v d) = keys d.
Proof.
  unfold keys. induction d as [|[k' v'] d IH]; simpl; intros Hk.
  - by apply elem_of_nil in Hk.
  - destruct (Nat.eqb_spec k k') as [->|Hne]; simpl; [done|].
    apply elem_of_cons in Hk as [?|Hk]; [done|]. f_equal. by apply IH.
Qed.

Lemma dict_update_nodup ps d :
  NoDup (keys d ++ ps.*1) -> dict_update d ps = d ++ ps.
Proof.
  unfold dict_update. revert d.
  induction ps as [|[k v] ps IH]; simpl; intros d Hnd.
  - by rewrite app_nil_r.
  - assert (Hk : k ∉ keys d).
    { apply NoDup_app in Hnd as (_ & Hd & _). intros Hin.
      apply (Hd k Hin). apply list_elem_of_here. }
    rewrite dict_set_fresh by done. rewrite IH.
    + by rewrite <- app_assoc.
    + unfold keys in *. rewrite fmap_app. simpl. by rewrite <- app_assoc.
Qed.

Lemma dict_of_list_nodup (ps : list (node * T)) : NoDup ps.*1 -> dict_of_list ps = ps.
Proof. intros Hnd. apply (dict_update_nodup ps []). by simpl. Qed.

Lemma fromkeys_nodup (ks : list node) v :
  NoDup ks -> fromkeys ks v = map (fun k => (k, v)) ks.
Proof.
  intros Hnd. unfold fromkeys. apply dict_of_list_nodup.
  rewrite <- list_fmap_compose. by rewrite list_fmap_id.
Qed.

Lemma keys_scale_dict s d : keys (scale_dict s d) = keys d.
Proof. unfold keys, scale_dict. induction d as [|[k v] d IH]; simpl; by f_equal. Qed.

Lemma values_scale_dict s d : values (scale_dict s d) = map (fun v => mul v s) (values d).
Proof. unfold values, scale_dict. induction d as [|[k v] d IH]; simpl; by f_equal. Qed.

Lemma keys_map_const (ks : list node) v : keys (map (fun k => (k, v)) ks) = ks.
Proof. unfold keys. induction ks; simpl; by f_equal. Qed.
End DictFacts.

(** ** Results *)

Lemma rmap_m_ok_map {A B} (g : A -> B) (xs : list A) :
  rmap_m (fun x => Ok (g x)) xs = Ok (map g xs).
Proof. induction xs as [|x xs IH]; simpl; [done|]. by rewrite IH. Qed.

Lemma rmap_m_map {A B C} (f : B -> result C) (g : A -> B) (xs : list A) :
  rmap_m f (map g xs) = rmap_m (fun x => f (g x)) xs.
Proof. induction xs as [|x xs IH]; simpl; [done|]. by rewrite IH. Qed.

Lemma rmap_m_ext {A B} (f g : A -> result B) (xs : list A) :
  (forall x, x ∈ xs -> f x = g x) -> rmap_m f xs = rmap_m g xs.
Proof.
  induction xs as [|x xs IH]; simpl; intros Hfg; [done|].
  rewrite Hfg by apply list_elem_of_here.
  rewrite IH; [done|]. intros y Hy. apply Hfg. by apply list_elem_of_further.
Qed.

Lemma rmap_m_length {A B} (f : A -> result B) (xs : list A) (ys : list B) :
  rmap_m f xs = Ok ys -> length ys = length xs.
Proof.
  revert ys. induction xs as [|x xs IH]; simpl; intros ys E.
  - by injection E as <-.
  - destruct (f x); simpl in E; [|done].
    destruct (rmap_m f xs); simpl in E; [|done].
    injection E as <-. simpl. f_equal. by apply IH.
Qed.

(** ** The store: what a computation may write *)

Section Frame.
Context {T : Type} `{PyNum T}.
Implicit Types (h : store T) (x l : loc).
Local Abbreviation read_only := (read_only (T:=T)).
Local Abbreviation only_writes := (only_writes (T:=T)).

Lemma read_only_writes {A} x (m : M T A) : read_only m -> only_writes x m.
Proof.
  intros Hm h Hx. destruct (lookup_lt_is_Some_2 h x Hx) as [d Hd].
  exists d. rewrite Hm. by rewrite list_insert_id.
Qed.

Lemma read_only_ret {A} (a : A) : read_only (ret a).
Proof. done. Qed.
Lemma read_only_raise {A} e : read_only (raise (A:=A) e).
Proof. done. Qed.
Lemma read_only_lift {A} (r : result A) : read_only (lift r).
Proof. done. Qed.
Lemma read_only_deref l : read_only (deref l).
Proof. intros h. unfold deref. by destruct (h !! l). Qed.

Lemma read_only_bind {A B} (m : M T A) (f : A -> M T B) :
  read_only m -> (forall a, read_only (f a)) -> read_only (bind m f).
Proof.
  intros Hm Hf h. unfold bind. specialize (Hm h).
  destruct (m h) as [[a|e] h']; simpl in *; subst; [apply Hf|done].
Qed.

Lemma read_only_getitem l k : read_only (getitem l k).
Proof.
  apply read_only_bind; [apply read_only_deref|].
  intros d. by destruct (dict_get k d).
Qed.
Lemma read_only_dict_keys l : read_only (dict_keys l).
Proof. apply read_only_bind; [apply read_only_deref|done]. Qed.
Lemma read_only_dict_values l : read_only (dict_values l).
Proof. apply read_only_bind; [apply read_only_deref|done]. Qed.

Lemma read_only_map_m {A B} (f : A -> M T B) (xs : list A) :
  (forall a, read_only (f a)) -> read_only (map_m f xs).
Proof.
  intros Hf. induction xs as [|a xs IH]; simpl; [done|].
  apply read_only_bind; [done|]. intros b.
  apply read_only_bind; [done|]. done.
Qed.

Lemma read_only_try {A} (m handler : M T A) :
  read_only m -> read_only handler -> read_only (try_except_ZeroDivisionError m handler).
Proof.
  intros Hm Hh h. unfold try_except_ZeroDivisionError. specialize (Hm h).
  destruct (m h) as [[a|e] h']; simpl in *; subst; [done|].
  destruct e; first [done | apply Hh].
Qed.

Lemma only_writes_bind {A B} x (m : M T A) (f : A -> M T B) :
  only_writes x m -> (forall a, only_writes x (f a)) -> only_writes x (bind m f).
Proof.
  intros Hm Hf h Hx. unfold bind. destruct (Hm h Hx) as [d Hd].
  destruct (m h) as [[a|e] h']; simpl in *; subst; [|by exists d].
  destruct (Hf a (<[x:=d]> h)) as [d' Hd']; [by rewrite length_insert|].
  exists d'. rewrite Hd'. by rewrite list_insert_insert_eq.
Qed.

Lemma only_writes_setitem x k v : only_writes x (setitem x k v).
Proof.
  intros h Hx. unfold setitem.
  destruct (lookup_lt_is_Some_2 h x Hx) as [d Hd]. rewrite Hd. by eexists.
Qed.

Lemma only_writes_for_each {A} x (xs : list A) (body : A -> M T unit) :
  (forall a, only_writes x (body a)) -> only_writes x (for_each xs body).
Proof.
  intros Hb. induction xs as [|a xs IH]; simpl.
  - by apply read_only_writes.
  - apply only_writes_bind; [done|]. by intros _.
Qed.

Lemma only_writes_scale x s : only_writes x (scale x s).
Proof.
  apply only_writes_bind; [apply read_only_writes, read_only_dict_keys|].
  intros ks. apply only_writes_for_each. intros k.
  apply only_writes_bind; [apply read_only_writes, read_only_getitem|].
  intros v. apply only_writes_setitem.
Qed.

Lemma only_writes_multiply (G : graph T) xlast x : only_writes x (multiply G xlast x).
Proof.
  apply only_writes_bind; [apply read_only_writes, read_only_dict_keys|].
  intros ks. apply only_writes_for_each. intros n.
  apply only_writes_bind; [apply read_only_writes, read_only_lift|].
  intros nbrs. apply only_writes_for_each. intros e.
  apply only_writes_bind; [apply read_only_writes, read_only_getitem|]. intros v.
  apply only_writes_bind; [apply read_only_writes, read_only_getitem|]. intros a.
  apply only_writes_setitem.
Qed.

Lemma read_only_norm_factor x : read_only (norm_factor x).
Proof.
  apply read_only_try; [|done].
  apply read_only_bind; [apply read_only_dict_values|]. intros vs.
  apply read_only_bind; [done|]. intros sq.
  apply read_only_bind; [done|]. done.
Qed.

Lemma read_only_error_term x xlast : read_only (error_term x xlast).
Proof.
  apply read_only_bind; [apply read_only_dict_keys|]. intros ks.
  apply read_only_bind; [|done].
  apply read_only_map_m. intros n.
  apply read_only_bind; [apply read_only_getitem|]. intros a.
  apply read_only_bind; [apply read_only_getitem|]. done.
Qed.

End Frame.

(** ** Running the loops of [eigenvector_centrality] *)

Section Run.
Context {T : Type} `{PyNum T}.
Implicit Types (h : store T) (d dl : dict T) (x xlast l : loc) (k n : node) (v s : T).

Lemma insert_last h d d' : <[length h := d']> (h ++ [d]) = h ++ [d'].
Proof.
  rewrite <- (Nat.add_0_r (length h)). by rewrite insert_app_r.
Qed.

(* A round allocates the new vector and writes nothing else. *)
Lemma iteration_store (G : graph T) nnodes tol xlast h :
  exists ext, (iteration G nnodes tol xlast h).2 = h ++ ext.
Proof.
  unfold iteration. unfold bind at 1.
  pose proof (read_only_dict_keys xlast h) as Hk.
  destruct (dict_keys xlast h) as [[ks|e] h0]; simpl in Hk; subst h0.
  2:{ exists []. simpl. by rewrite app_nil_r. }
  unfold bind at 1. unfold alloc at 1.
  set (x := length h). set (d0 := fromkeys ks zero).
  match goal with |- exists ext, (?m _).2 = _ =>
    assert (Hw : only_writes x m) end.
  { apply only_writes_bind; [apply only_writes_multiply|]. intros _.
    apply only_writes_bind; [apply read_only_writes, read_only_norm_factor|]. intros s.
    apply only_writes_bind; [apply only_writes_scale|]. intros _.
    apply only_writes_bind; [apply read_only_writes, read_only_error_term|]. intros err.
    by apply read_only_writes. }
  destruct (Hw (h ++ [d0])) as [d Hd].
  { rewrite length_app. simpl. unfold x. lia. }
  exists [d]. rewrite Hd. apply insert_last.
Qed.

Lemma power_iterations_store (G : graph T) nnodes tol rounds x h :
  exists ext, (power_iterations G nnodes tol rounds x h).2 = h ++ ext.
Proof.
  revert x h. induction rounds as [|rounds IH]; intros x h; simpl.
  - exists []. simpl. by rewrite app_nil_r.
  - unfold bind. destruct (iteration_store G nnodes tol x h) as [ext Hext].
    destruct (iteration G nnodes tol x h) as [[[x' b]|e] h']; simpl in *; subst h'.
    + destruct b.
      * by exists ext.
      * destruct (IH x' (h ++ ext)) as [ext' Hext'].
        exists (ext ++ ext'). rewrite Hext'. by rewrite app_assoc.
    + by exists ext.
Qed.

Lemma getitem_run l k h d v :
  h !! l = Some d -> dict_get k d = Some v -> getitem l k h = (Ok v, h).
Proof. intros Hl Hk. unfold getitem, bind, deref. by rewrite Hl, Hk. Qed.

Lemma getitem_raise l k h d :
  h !! l = Some d -> dict_get k d = None -> getitem l k h = (Raise (KeyError k), h).
Proof. intros Hl Hk. unfold getitem, bind, deref. by rewrite Hl, Hk. Qed.

Lemma setitem_run l k v h d :
  h !! l = Some d -> setitem l k v h = (Ok tt, <[l := dict_set k v d]> h).
Proof. intros Hl. unfold setitem. by rewrite Hl. Qed.

Lemma dict_keys_run l h d : h !! l = Some d -> dict_keys l h = (Ok (keys d), h).
Proof. intros Hl. unfold dict_keys, bind, deref. by rewrite Hl. Qed.

Lemma dict_values_run l h d : h !! l = Some d -> dict_values l h = (Ok (values d), h).
Proof. intros Hl. unfold dict_values, bind, deref. by rewrite Hl. Qed.

Lemma dict_set_id k v d : dict_get k d = Some v -> dict_set k v d = d.
Proof.
  unfold dict_get. induction d as [|[k' v'] d IH]; simpl; [done|].
  destruct (Nat.eqb_spec k k') as [->|]; intros E.
  - by injection E as ->.
  - by rewrite IH.
Qed.

(* A loop over the keys of the dict at [x] whose body rewrites the entry
   of its key: the entries are rewritten one after the other, in place. *)
Lemma for_each_keys_run x (body : node -> M T unit) (f : node -> T -> result T)
    (Inv : store T -> Prop) :
  (forall h d, Inv h -> Inv (<[x := d]> h)) ->
  (forall n v d h, Inv h -> h !! x = Some d -> dict_get n d = Some v ->
     (body n h).1 = rbind (f n v) (fun _ => Ok tt) /\
     forall v', f n v = Ok v' -> (body n h).2 = <[x := dict_set n v' d]> h) ->
  forall d2 d1 h, Inv h -> h !! x = Some (d1 ++ d2) -> NoDup (keys (d1 ++ d2)) ->
    (for_each (keys d2) body h).1
      = rbind (rmap_m (fun p => rbind (f p.1 p.2) (fun v' => Ok (p.1, v'))) d2)
              (fun _ => Ok tt) /\
    forall d2', rmap_m (fun p => rbind (f p.1 p.2) (fun v' => Ok (p.1, v'))) d2 = Ok d2' ->
      (for_each (keys d2) body h).2 = <[x := d1 ++ d2']> h.
Proof.
  intros HInv Hbody. induction d2 as [|[k v] d2 IH]; intros d1 h Hh Hx Hnd.
  - simpl. split; [done|]. intros d2' E. injection E as <-.
    by rewrite list_insert_id.
  - assert (Hk : k ∉ keys d1).
    { unfold keys in *. rewrite fmap_app in Hnd.
      apply NoDup_app in Hnd as (_ & Hd & _). intros Hin.
      apply (Hd k Hin). simpl. apply list_elem_of_here. }
    assert (Hget : dict_get k (d1 ++ (k, v) :: d2) = Some v).
    { unfold dict_get. rewrite assoc_app_notin by done. apply assoc_head. }
    destruct (Hbody k v _ h Hh Hx Hget) as [Hb1 Hb2].
    simpl. unfold bind.
    destruct (body k h) as [r h1]. simpl in Hb1, Hb2. subst r.
    destruct (f k v) as [v'|e]; simpl; [|done].
    specialize (Hb2 v' eq_refl). subst h1.
    rewrite dict_set_app_notin, dict_set_head by done.
    assert (Hlt : x < length h) by (by eapply lookup_lt_Some).
    destruct (IH (d1 ++ [(k, v')]) (<[x := d1 ++ (k, v') :: d2]> h)) as [IH1 IH2].
    + by apply HInv.
    + rewrite list_lookup_insert_eq by done. by rewrite <- app_assoc.
    + unfold keys in *. rewrite <- app_assoc. simpl.
      by rewrite !fmap_app in *.
    + rewrite IH1. split.
      * by destruct (rmap_m _ d2).
      * intros d2' E. destruct (rmap_m _ d2) as [ys|]; simpl in E; [|done].
        injection E as <-. rewrite (IH2 ys eq_refl).
        rewrite list_insert_insert_eq. by rewrite <- app_assoc.
Qed.

(* [for k in x: x[k]*=s] *)
Lemma scale_run x s h d :
  h !! x = Some d -> NoDup (keys d) ->
  scale x s h = (Ok tt, <[x := scale_dict s d]> h).
Proof.
  intros Hx Hnd. unfold scale, bind at 1. rewrite (dict_keys_run _ _ _ Hx).
  destruct (for_each_keys_run x
              (fun k => let* v := getitem x k in setitem x k (mul v s))
              (fun _ v => Ok (mul v s)) (fun _ => True)) with (d2 := d) (d1 := @nil (nat * T)) (h := h)
    as [E1 E2]; try done.
  - intros n v d0 h0 _ Hx0 Hg. unfold bind.
    rewrite (getitem_run _ _ _ _ _ Hx0 Hg). rewrite (setitem_run _ _ _ _ _ Hx0).
    split; [done|]. intros v' E. by injection E as <-.
  - simpl in E1, E2.
    rewrite (rmap_m_ok_map (fun p : nat * T => (p.1, mul p.2 s))) in E1, E2.
    specialize (E2 _ eq_refl). simpl in E1.
    destruct (for_each _ _ h) as [r h']. simpl in *. by subst.
Qed.
Lemma bind_run_ok {A B} (m : M T A) (f : A -> M T B) h a h' :
  m h = (Ok a, h') -> bind m f h = f a h'.
Proof. intros E. unfold bind. by rewrite E. Qed.

Lemma bind_run_raise {A B} (m : M T A) (f : A -> M T B) h e h' :
  m h = (Raise e, h') -> bind m f h = (Raise e, h').
Proof. intros E. unfold bind. by rewrite E. Qed.

(* What [G[n][nbr].get('weight',1)] finds is the weight of the
   specification: the weight of the edge, and 1 when it has none. *)
Lemma get_weight_is_weight (e : node * option T) : get_weight e.2 = weight e.
Proof. unfold get_weight, weight. by destruct e.2. Qed.

(* [x[n]+=xlast[nbr]*G[n][nbr].get('weight',1)] *)
Lemma accumulate_step xlast x n dl (e : node * option T) h d v :
  h !! x = Some d -> h !! xlast = Some dl -> dict_get n d = Some v ->
  (let* v := getitem x n in
   let* a := getitem xlast e.1 in
   setitem x n (add v (mul a (get_weight e.2)))) h
  = match term dl e with
    | Ok t => (Ok tt, <[x := dict_set n (add v t) d]> h)
    | Raise err => (Raise err, h)
    end.
Proof.
  intros Hx Hl Hn. rewrite (get_weight_is_weight e).
  rewrite (bind_run_ok _ _ _ _ _ (getitem_run _ _ _ _ _ Hx Hn)).
  unfold term. destruct (dict_get e.1 dl) as [a|] eqn:Ea.
  - rewrite (bind_run_ok _ _ _ _ _ (getitem_run _ _ _ _ _ Hl Ea)).
    by rewrite (setitem_run _ _ _ _ _ Hx).
  - by rewrite (bind_run_raise _ _ _ _ _ (getitem_raise _ _ _ _ Hl Ea)).
Qed.

(* [for nbr in G[n]: x[n]+=xlast[nbr]*...]: the terms are added to the
   entry of [n], one after the other. *)
Lemma accumulate_run xlast x n dl (nbrs : list (node * option T)) :
  x <> xlast ->
  forall h d v, h !! x = Some d -> h !! xlast = Some dl -> dict_get n d = Some v ->
    let run := for_each nbrs (fun e =>
                 let* v := getitem x n in
                 let* a := getitem xlast e.1 in
                 setitem x n (add v (mul a (get_weight e.2)))) h in
    run.1 = rbind (rmap_m (term dl) nbrs) (fun _ => Ok tt) /\
    forall terms, rmap_m (term dl) nbrs = Ok terms ->
      run.2 = <[x := dict_set n (fold_left add terms v) d]> h.
Proof.
  intros Hne. induction nbrs as [|e nbrs IH]; intros h d v Hx Hl Hn; cbv zeta.
  - simpl. split; [done|]. intros terms E. injection E as <-. simpl.
    rewrite (dict_set_id _ _ _ Hn). by rewrite list_insert_id.
  - cbn [for_each rmap_m].
    pose proof (accumulate_step xlast x n dl e h d v Hx Hl Hn) as Hstep.
    destruct (term dl e) as [t|err].
    2:{ rewrite (bind_run_raise _ _ _ _ _ Hstep). by split. }
    rewrite (bind_run_ok _ _ _ _ _ Hstep).
    assert (Hlt : x < length h) by (by eapply lookup_lt_Some).
    destruct (IH (<[x := dict_set n (add v t) d]> h) (dict_set n (add v t) d) (add v t))
      as [IH1 IH2].
    + by rewrite list_lookup_insert_eq.
    + by rewrite list_lookup_insert_ne.
    + apply dict_get_set_eq.
    + cbv zeta in IH1, IH2. rewrite IH1. simpl. split.
      * by destruct (rmap_m (term dl) nbrs).
      * intros terms E. destruct (rmap_m (term dl) nbrs) as [ts|]; simpl in E; [|done].
        injection E as <-. rewrite (IH2 ts eq_refl). simpl.
        by rewrite list_insert_insert_eq, dict_set_set.
Qed.

(* The two nested loops compute the matrix-vector product into the
   all-zero dict at [x]. *)
Lemma multiply_run (G : graph T) xlast x h dl :
  x <> xlast -> h !! xlast = Some dl ->
  h !! x = Some (map (fun k => (k, zero)) (keys dl)) -> NoDup (keys dl) ->
  (multiply G xlast x h).1 = rbind (matvec G dl) (fun _ => Ok tt) /\
  forall y, matvec G dl = Ok y -> (multiply G xlast x h).2 = <[x := y]> h.
Proof.
  intros Hne Hl Hx Hnd. unfold multiply.
  rewrite (bind_run_ok _ _ _ _ _ (dict_keys_run _ _ _ Hx)).
  set (f := fun n v => rbind (graph_getitem G n) (fun nbrs =>
              rbind (rmap_m (term dl) nbrs) (fun terms => Ok (fold_left add terms v)))).
  assert (HR : rmap_m (fun p : nat * T => rbind (f p.1 p.2) (fun v' => Ok (p.1, v')))
                 (map (fun k => (k, zero)) (keys dl)) = matvec G dl).
  { rewrite rmap_m_map. unfold matvec. apply rmap_m_ext. intros k _. simpl.
    unfold f, weighted_sum. destruct (graph_getitem G k) as [nbrs|]; simpl; [|done].
    by destruct (rmap_m (term dl) nbrs). }
  destruct (for_each_keys_run x
              (fun n => let* nbrs := lift (graph_getitem G n) in
                        for_each nbrs (fun e =>
                          let* v := getitem x n in
                          let* a := getitem xlast e.1 in
                          setitem x n (add v (mul a (get_weight e.2)))))
              f (fun h => h !! xlast = Some dl))
    with (d2 := map (fun k => (k, @zero T _)) (keys dl)) (d1 := @nil (nat * T)) (h := h)
    as [E1 E2]; try done.
  - intros h0 d0 Hl0. by rewrite list_lookup_insert_ne.
  - intros n v d0 h0 Hl0 Hx0 Hg. unfold f.
    destruct (graph_getitem G n) as [nbrs|e].
    2:{ by rewrite (bind_run_raise (lift (Raise e)) _ h0 e h0 eq_refl). }
    rewrite (bind_run_ok (lift (Ok nbrs)) _ h0 nbrs h0 eq_refl). simpl.
    destruct (accumulate_run xlast x n dl nbrs Hne h0 d0 v Hx0 Hl0 Hg) as [E1 E2].
    cbv zeta in E1, E2. rewrite E1. split.
    + by destruct (rmap_m (term dl) nbrs).
    + intros v' E. destruct (rmap_m (term dl) nbrs) as [ts|]; simpl in E; [|done].
      injection E as <-. by apply E2.
  - simpl. by rewrite keys_map_const.
  - rewrite HR in E1, E2. by split.
Qed.

Lemma rmap_m_pysq_raise (vs : list T) e : rmap_m pysq vs = Raise e -> e = OverflowError.
Proof.
  induction vs as [|v vs IH]; simpl; [done|].
  unfold pysq at 1. destruct (pow_overflows v); simpl.
  - by intros [= <-].
  - destruct (rmap_m pysq vs); simpl; [done|]. intros [= <-]. by apply IH.
Qed.

(* The factor the code scales by: the [try] turns the division by a zero
   norm into the factor 1 and lets the other exceptions through. *)
Lemma norm_factor_run x h d :
  h !! x = Some d -> norm_factor x h = (scale_factor d, h).
Proof.
  intros Hx. unfold norm_factor, try_except_ZeroDivisionError, bind at 1.
  rewrite (dict_values_run _ _ _ Hx).
  unfold scale_factor, euclidean_norm, sum_of_squares, bind, lift.
  destruct (rmap_m pysq (values d)) as [sq|e] eqn:Esq; simpl.
  2:{ by rewrite (rmap_m_pysq_raise _ _ Esq). }
  unfold pysqrt. destruct (flt (pysum sq) zero); simpl; [done|].
  unfold pydiv. by destruct (feq (fsqrt (pysum sq)) zero).
Qed.

Lemma error_term_run x xlast h d dl :
  h !! x = Some d -> h !! xlast = Some dl -> keys d = keys dl -> NoDup (keys d) ->
  error_term x xlast h = (Ok (l1_distance d dl), h).
Proof.
  intros Hx Hl Hk Hnd. unfold error_term, bind at 1.
  rewrite (dict_keys_run _ _ _ Hx).
  assert (Hgen : forall d2 d1 dl2 dl1, d = d1 ++ d2 -> dl = dl1 ++ dl2 ->
            keys d1 = keys dl1 -> keys d2 = keys dl2 ->
            map_m (fun n => let* a := getitem x n in
                            let* b := getitem xlast n in
                            ret (fabs (sub a b))) (keys d2) h
            = (Ok (zip_with (fun a b => fabs (sub a b)) (values d2) (values dl2)), h)).
  { induction d2 as [|[k a] d2 IH]; intros d1 dl2 dl1 Ed Edl Hk1 Hk2.
    - done.
    - destruct dl2 as [|[k' b] dl2]; [done|]. simpl in Hk2.
      injection Hk2 as <- Hk2.
      assert (Hk' : k ∉ keys d1).
      { rewrite Ed in Hnd. unfold keys in *. rewrite fmap_app in Hnd.
        apply NoDup_app in Hnd as (_ & Hd & _). intros Hin.
        apply (Hd k Hin). simpl. apply list_elem_of_here. }
      simpl. unfold bind at 1 2.
      rewrite (getitem_run x k h d a Hx).
      2:{ rewrite Ed. unfold dict_get. rewrite assoc_app_notin by done. apply assoc_head. }
      unfold bind at 1. rewrite (getitem_run xlast k h dl b Hl).
      2:{ rewrite Edl. unfold dict_get. rewrite assoc_app_notin by (change (k ∉ keys dl1); by rewrite <- Hk1).
          apply assoc_head. }
      unfold ret at 1. unfold bind at 1.
      rewrite (IH (d1 ++ [(k, a)]) dl2 (dl1 ++ [(k, b)])).
      + done.
      + by rewrite <- app_assoc.
      + by rewrite <- app_assoc.
      + unfold keys in *. rewrite !fmap_app. by rewrite Hk1.
      + done. }
  by rewrite (bind_run_ok _ _ _ _ _ (Hgen d [] dl [] eq_refl eq_refl eq_refl Hk)).
Qed.
Lemma bind_run {A B} (m : M T A) (f : A -> M T B) h r h' :
  m h = (r, h') ->
  bind m f h = match r with Ok a => f a h' | Raise e => (Raise e, h') end.
Proof. intros E. unfold bind. by rewrite E. Qed.

Lemma rmap_m_keys {A} (f : node -> result T) (g : node -> result A) (ks : list node)
    (ps : dict T) :
  rmap_m (fun n => rbind (g n) (fun _ => rbind (f n) (fun v => Ok (n, v)))) ks = Ok ps ->
  keys ps = ks.
Proof.
  revert ps. induction ks as [|k ks IH]; simpl; intros ps E.
  - by injection E as <-.
  - destruct (g k); simpl in E; [|done]. destruct (f k); simpl in E; [|done].
    destruct (rmap_m _ ks) as [ps'|]; simpl in E; [|done].
    injection E as <-. unfold keys in *. simpl. f_equal. by apply IH.
Qed.

Lemma matvec_keys (G : graph T) dl y : matvec G dl = Ok y -> keys y = keys dl.
Proof.
  unfold matvec. intros E. revert y E.
  induction (keys dl) as [|k ks IH]; simpl; intros y E.
  - by injection E as <-.
  - destruct (graph_getitem G k) as [nbrs|]; simpl in E; [|done].
    destruct (weighted_sum dl nbrs); simpl in E; [|done].
    destruct (rmap_m _ ks) as [ps'|]; simpl in E; [|done].
    injection E as <-. unfold keys in *. simpl. f_equal. by apply IH.
Qed.

Lemma spec_iteration_keys (G : graph T) nnodes tol dl cur b :
  spec_iteration G nnodes tol dl = Ok (cur, b) -> keys cur = keys dl.
Proof.
  unfold spec_iteration. destruct (matvec G dl) as [y|] eqn:Ey; simpl; [|done].
  destruct (scale_factor y) as [s|]; simpl; [|done].
  intros [= <- _]. rewrite keys_scale_dict. by eapply matvec_keys.
Qed.

(* One round of the loop is one round of the specification, on the
   vector the store holds at [xlast]; the new vector is a new object. *)
Lemma iteration_run (G : graph T) nnodes tol xlast h dl :
  h !! xlast = Some dl -> NoDup (keys dl) ->
  (iteration G nnodes tol xlast h).1
    = rbind (spec_iteration G nnodes tol dl) (fun r => Ok (length h, r.2)) /\
  forall cur b, spec_iteration G nnodes tol dl = Ok (cur, b) ->
    (iteration G nnodes tol xlast h).2 = h ++ [cur].
Proof.
  intros Hl Hnd. unfold iteration.
  rewrite (bind_run_ok _ _ _ _ _ (dict_keys_run _ _ _ Hl)).
  rewrite (bind_run_ok (alloc _) _ h (length h) (h ++ [fromkeys (keys dl) zero]) eq_refl).
  rewrite fromkeys_nodup by done.
  set (x := length h). set (d0 := map (fun k => (k, zero)) (keys dl)).
  assert (Hlt : xlast < length h) by (by eapply lookup_lt_Some).
  assert (Hne : x <> xlast) by (unfold x; lia).
  assert (Hl1 : (h ++ [d0]) !! xlast = Some dl) by (by apply lookup_app_l_Some).
  assert (Hx1 : (h ++ [d0]) !! x = Some d0) by (by apply list_lookup_middle).
  destruct (multiply_run G xlast x (h ++ [d0]) dl Hne Hl1 Hx1 Hnd) as [E1 E2].
  unfold spec_iteration.
  destruct (matvec G dl) as [y|e] eqn:Ey; simpl in E1; cbn [rbind].
  2:{ destruct (multiply G xlast x (h ++ [d0])) as [r h2] eqn:Em. simpl in E1. subst r.
      rewrite (bind_run_raise _ _ _ _ _ Em). by split. }
  specialize (E2 y eq_refl).
  destruct (multiply G xlast x (h ++ [d0])) as [r h2] eqn:Em. simpl in E1, E2. subst r h2.
  rewrite (bind_run_ok _ _ _ _ _ Em).
  replace (<[x:=y]> (h ++ [d0])) with (h ++ [y]) by (symmetry; apply insert_last).
  assert (Hx2 : (h ++ [y]) !! x = Some y) by (by apply list_lookup_middle).
  assert (Hl2 : (h ++ [y]) !! xlast = Some dl) by (by apply lookup_app_l_Some).
  assert (Hky : keys y = keys dl) by (by eapply matvec_keys).
  rewrite (bind_run _ _ _ _ _ (norm_factor_run x _ y Hx2)).
  destruct (scale_factor y) as [s|e]; simpl; [|by split].
  rewrite (bind_run_ok _ _ _ _ _ (scale_run x s _ y Hx2 ltac:(by rewrite Hky))).
  replace (<[x:=scale_dict s y]> (h ++ [y])) with (h ++ [scale_dict s y])
    by (symmetry; apply insert_last).
  assert (Hx3 : (h ++ [scale_dict s y]) !! x = Some (scale_dict s y))
    by (by apply list_lookup_middle).
  assert (Hl3 : (h ++ [scale_dict s y]) !! xlast = Some dl) by (by apply lookup_app_l_Some).
  rewrite (bind_run_ok _ _ _ _ _
             (error_term_run x xlast _ _ dl Hx3 Hl3
                ltac:(by rewrite keys_scale_dict) ltac:(by rewrite keys_scale_dict, Hky))).
  simpl. split; [done|]. by intros cur b [= <- _].
Qed.

(* The rounds of the loop are the rounds of the specification. *)
Lemma power_run (G : graph T) nnodes tol rounds :
  forall x h dl, h !! x = Some dl -> NoDup (keys dl) ->
    let run := power_iterations G nnodes tol rounds x h in
    match spec_power G nnodes tol rounds dl with
    | Ok d => exists l, run.1 = Ok l /\ run.2 !! l = Some d
    | Raise e => run.1 = Raise e
    end.
Proof.
  induction rounds as [|rounds IH]; intros x h dl Hx Hnd; cbv zeta; [done|].
  cbn [power_iterations spec_power].
  destruct (iteration_run G nnodes tol x h dl Hx Hnd) as [E1 E2].
  destruct (spec_iteration G nnodes tol dl) as [[cur b]|e] eqn:Es; simpl in E1.
  2:{ destruct (iteration G nnodes tol x h) as [r h1] eqn:Ei. simpl in E1. subst r.
      by rewrite (bind_run_raise _ _ _ _ _ Ei). }
  specialize (E2 cur b eq_refl).
  destruct (iteration G nnodes tol x h) as [r h1] eqn:Ei. simpl in E1, E2. subst r h1.
  rewrite (bind_run_ok _ _ _ _ _ Ei). simpl.
  destruct b.
  - exists (length h). split; [done|]. by apply list_lookup_middle.
  - apply IH.
    + by apply list_lookup_middle.
    + by rewrite (spec_iteration_keys _ _ _ _ _ _ Es).
Qed.

Lemma uniform_start_keys (G : graph T) d : uniform_start G = Ok d -> keys d = nodes G.
Proof.
  unfold uniform_start. intros E. revert d E.
  induction (nodes G) as [|k ks IH]; simpl; intros d E.
  - by injection E as <-.
  - destruct (pydiv one (of_nat (length (adj G)))); simpl in E; [|done].
    destruct (rmap_m _ ks) as [ps'|]; simpl in E; [|done].
    injection E as <-. unfold keys in *. simpl. f_equal. by apply IH.
Qed.

(* [[(n,1.0/len(G)) for n in G]] *)
Lemma start_items_run (G : graph T) h (ks : list node) :
  map_m (fun n => let* v := lift (pydiv one (of_nat (length (adj G)))) in ret (n, v)) ks h
  = (rmap_m (fun n => rbind (pydiv one (of_nat (length (adj G)))) (fun v => Ok (n, v))) ks,
     h).
Proof.
  induction ks as [|k ks IH]; simpl; [done|].
  assert (Hk : (let* v := lift (pydiv one (of_nat (length (adj G)))) in ret (k, v)) h
               = (rbind (pydiv one (of_nat (length (adj G)))) (fun v => Ok (k, v)), h)).
  { unfold bind, lift, ret. by destruct (pydiv one (of_nat (length (adj G)))). }
  rewrite (bind_run _ _ _ _ _ Hk).
  destruct (rbind (pydiv one (of_nat (length (adj G)))) (fun v => Ok (k, v)))
    as [kv|e]; simpl; [|done].
  rewrite (bind_run _ _ _ _ _ IH). by destruct (rmap_m _ ks).
Qed.

(* [dict([(n,1.0/len(G)) for n in G])]: whether it raises *)
Lemma default_start_result (G : graph T) h :
  (default_start G h).1 = rbind (uniform_start G) (fun _ => Ok (length h)).
Proof.
  unfold default_start. rewrite (bind_run _ _ _ _ _ (start_items_run G h (nodes G))).
  fold (uniform_start G). by destruct (uniform_start G).
Qed.

(* [dict([(n,1.0/len(G)) for n in G])] *)
Lemma default_start_run (G : graph T) h :
  NoDup (nodes G) ->
  default_start G h = match uniform_start G with
                      | Ok d => (Ok (length h), h ++ [d])
                      | Raise e => (Raise e, h)
                      end.
Proof.
  intros Hnd. unfold default_start.
  rewrite (bind_run _ _ _ _ _ (start_items_run G h (nodes G))). fold (uniform_start G).
  destruct (uniform_start G) as [d|e] eqn:Ed; [|done].
  unfold alloc. rewrite dict_of_list_nodup; [done|].
  change (NoDup (keys d)). by rewrite (uniform_start_keys _ _ Ed).
Qed.

(* The whole call, once the start vector is the object at [x]. *)
Lemma centrality_run (G : graph T) max_iter tol nstart h x h1 start :
  is_multigraph_class (gclass G) = false ->
  match nstart with None => default_start G | Some l => ret l end h = (Ok x, h1) ->
  h1 !! x = Some start -> NoDup (keys start) ->
  let run := eigenvector_centrality G max_iter tol nstart h in
  match spec_centrality G max_iter tol start with
  | Ok d => exists l, run.1 = Ok l /\ run.2 !! l = Some d
  | Raise e => run.1 = Raise e
  end.
Proof.
  intros Hc Hstart Hx Hnd. cbv zeta. unfold eigenvector_centrality, spec_centrality.
  rewrite Hc. rewrite (bind_run_ok _ _ _ _ _ Hstart).
  rewrite (bind_run_ok _ _ _ _ _ (dict_values_run _ _ _ Hx)).
  rewrite (bind_run (lift _) _ h1 _ h1 eq_refl).
  destruct (pydiv one (pysum (values start))) as [s|e]; simpl; [|done].
  rewrite (bind_run_ok _ _ _ _ _ (scale_run x s h1 start Hx Hnd)).
  assert (Hlt : x < length h1) by (by eapply lookup_lt_Some).
  apply power_run.
  - by rewrite list_lookup_insert_eq.
  - by rewrite keys_scale_dict.
Qed.

(* What the call leaves in the store when it is given a start vector. *)
Lemma centrality_store_nstart (G : graph T) max_iter tol l h d :
  is_multigraph_class (gclass G) = false -> h !! l = Some d -> NoDup (keys d) ->
  match pydiv one (pysum (values d)) with
  | Ok s => exists ext,
      (eigenvector_centrality G max_iter tol (Some l) h).2 = <[l := scale_dict s d]> h ++ ext
  | Raise e => eigenvector_centrality G max_iter tol (Some l) h = (Raise e, h)
  end.
Proof.
  intros Hc Hl Hnd. unfold eigenvector_centrality. rewrite Hc.
  rewrite (bind_run_ok (ret l) _ h l h eq_refl).
  rewrite (bind_run_ok _ _ _ _ _ (dict_values_run _ _ _ Hl)).
  rewrite (bind_run (lift _) _ h _ h eq_refl).
  destruct (pydiv one (pysum (values d))) as [s|e]; simpl; [|done].
  rewrite (bind_run_ok _ _ _ _ _ (scale_run l s h d Hl Hnd)).
  apply power_iterations_store.
Qed.
(** ** The rounds of the specification *)

Lemma matvec_lookup (G : graph T) prev y n nbrs :
  matvec G prev = Ok y -> n ∈ keys prev -> graph_getitem G n = Ok nbrs ->
  exists v, weighted_sum prev nbrs = Ok v /\ dict_get n y = Some v.
Proof.
  unfold matvec. intros E Hn Hg. revert y E Hn.
  induction (keys prev) as [|k ks IH]; simpl; intros y E Hn.
  - by apply elem_of_nil in Hn.
  - destruct (graph_getitem G k) as [nbrs'|] eqn:Ek; simpl in E; [|done].
    destruct (weighted_sum prev nbrs') as [v|] eqn:Ev; simpl in E; [|done].
    destruct (rmap_m _ ks) as [ps|]; simpl in E; [|done].
    injection E as <-. unfold dict_get. simpl.
    destruct (Nat.eqb_spec n k) as [->|Hne].
    + rewrite Hg in Ek. injection Ek as <-. by exists v.
    + apply elem_of_cons in Hn as [?|Hn]; [done|]. by apply IH.
Qed.

Lemma dict_get_scale_dict n s d v :
  dict_get n d = Some v -> dict_get n (scale_dict s d) = Some (mul v s).
Proof.
  unfold dict_get, scale_dict. induction d as [|[k a] d IH]; simpl; [done|].
  destruct (Nat.eqb n k); [by intros [= ->]|done].
Qed.

(* A vector the rounds return is the product of some round, scaled. *)
Lemma spec_power_last_round (G : graph T) nnodes tol rounds :
  forall dl d, spec_power G nnodes tol rounds dl = Ok d ->
    exists prev y s, keys prev = keys dl /\ matvec G prev = Ok y /\
                     scale_factor y = Ok s /\ d = scale_dict s y.
Proof.
  induction rounds as [|rounds IH]; intros dl d; simpl; [done|].
  destruct (spec_iteration G nnodes tol dl) as [[cur b]|] eqn:Es; simpl; [|done].
  pose proof (spec_iteration_keys _ _ _ _ _ _ Es) as Hk.
  unfold spec_iteration in Es.
  destruct (matvec G dl) as [y|] eqn:Ey; simpl in Es; [|done].
  destruct (scale_factor y) as [s|] eqn:Esf; simpl in Es; [|done].
  injection Es as <- <-.
  destruct (flt _ _).
  - intros [= <-]. by exists dl, y, s.
  - intros E. destruct (IH _ _ E) as (prev & y' & s' & Hk' & ? & ? & ?).
    exists prev, y', s'. split; [|done]. by rewrite Hk'.
Qed.

Lemma matvec_raises (G : graph T) dl e : matvec G dl = Raise e -> exists k, e = KeyError k.
Proof.
  unfold matvec. induction (keys dl) as [|k ks IH]; simpl; [done|].
  unfold graph_getitem at 1. destruct (assoc k (adj G)) as [nbrs|]; simpl.
  2:{ intros [= <-]. by eexists. }
  destruct (weighted_sum dl nbrs) as [v|e'] eqn:Ew; simpl.
  - destruct (rmap_m _ ks); simpl; [done|]. intros [= <-]. by apply IH.
  - intros [= <-]. unfold weighted_sum in Ew.
    destruct (rmap_m (term dl) nbrs) as [ts|e''] eqn:Et; simpl in Ew; [done|].
    injection Ew as <-. clear -Et. revert Et.
    induction nbrs as [|b nbrs IHn]; simpl; [done|].
    unfold term at 1. destruct (dict_get b.1 dl); simpl.
    + destruct (rmap_m (term dl) nbrs); simpl; [done|]. intros [= <-]. by apply IHn.
    + intros [= <-]. by eexists.
Qed.

Lemma scale_factor_raises d e :
  scale_factor d = Raise e -> e = OverflowError \/ e = ValueError.
Proof.
  unfold scale_factor, euclidean_norm, sum_of_squares.
  destruct (rmap_m pysq (values d)) as [sq|e'] eqn:Esq; simpl.
  - unfold pysqrt. destruct (flt (pysum sq) zero); simpl.
    + intros [= <-]. by right.
    + by destruct (feq _ _).
  - intros [= <-]. left. by eapply rmap_m_pysq_raise.
Qed.

Lemma spec_power_raises (G : graph T) nnodes tol rounds :
  forall dl e, spec_power G nnodes tol rounds dl = Raise e -> power_exn e.
Proof.
  induction rounds as [|rounds IH]; intros dl e; simpl.
  - by intros [= <-].
  - unfold spec_iteration.
    destruct (matvec G dl) as [y|e'] eqn:Ey; simpl.
    2:{ intros [= <-]. by destruct (matvec_raises _ _ _ Ey) as [k ->]. }
    destruct (scale_factor y) as [s|e'] eqn:Esf; simpl.
    2:{ intros [= <-]. by destruct (scale_factor_raises _ _ Esf) as [-> | ->]. }
    destruct (flt _ _); [done|]. apply IH.
Qed.

(* What a call that returns has computed. *)
Lemma centrality_returns (G : graph T) max_iter tol nstart h l h' :
  NoDup (nodes G) -> Forall (fun d => NoDup (keys d)) h ->
  eigenvector_centrality G max_iter tol nstart h = (Ok l, h') ->
  exists start d,
    match nstart with
    | None => uniform_start G = Ok start
    | Some l0 => h !! l0 = Some start
    end /\
    spec_centrality G max_iter tol start = Ok d /\ h' !! l = Some d.
Proof.
  intros HG Hh Hrun.
  assert (Hc : is_multigraph_class (gclass G) = false).
  { unfold eigenvector_centrality in Hrun.
    by destruct (is_multigraph_class (gclass G)). }
  assert (Hstart : exists x h1 start,
             match nstart with None => default_start G | Some l => ret l end h = (Ok x, h1) /\
             h1 !! x = Some start /\ NoDup (keys start) /\
             match nstart with
             | None => uniform_start G = Ok start
             | Some l0 => h !! l0 = Some start
             end).
  { destruct nstart as [l0|].
    - destruct (h !! l0) as [d0|] eqn:El0.
      + exists l0, h, d0. split; [done|]. split; [done|]. split; [|done].
        by eapply (Forall_lookup_1 _ _ _ _ Hh).
      + exfalso. unfold eigenvector_centrality in Hrun. rewrite Hc in Hrun.
        rewrite (bind_run_ok (ret l0) _ h l0 h eq_refl) in Hrun.
        assert (E : dict_values l0 h = (Raise (InvalidReference l0), h)).
        { unfold dict_values, bind, deref. by rewrite El0. }
        by rewrite (bind_run_raise _ _ _ _ _ E) in Hrun.
    - pose proof (default_start_run G h HG) as Ed.
      destruct (uniform_start G) as [start|e] eqn:Eu.
      + exists (length h), (h ++ [start]), start. split; [done|].
        split; [by apply list_lookup_middle|]. split; [|done].
        by rewrite (uniform_start_keys _ _ Eu).
      + exfalso. unfold eigenvector_centrality in Hrun. rewrite Hc in Hrun.
        by rewrite (bind_run_raise _ _ _ _ _ Ed) in Hrun. }
  destruct Hstart as (x & h1 & start & Hs & Hx & Hnd & Hns).
  pose proof (centrality_run G max_iter tol nstart h x h1 start Hc Hs Hx Hnd) as Hr.
  cbv zeta in Hr. rewrite Hrun in Hr. simpl in Hr.
  exists start. destruct (spec_centrality G max_iter tol start) as [d|e]; [|done].
  destruct Hr as (l' & [= <-] & Hd). by exists d.
Qed.
End Run.

(** ** [eigenvector_centrality_numpy]: the assembled vector *)

Section NumpyFacts.
Context {T : Type} `{PyNum T}.
Implicit Types (d c : dict T) (k n : node) (ps : list (node * T)).

Lemma NoDup_keys_dict_set k (v : T) d : NoDup (keys d) -> NoDup (keys (dict_set k v d)).
Proof.
  intros Hnd. destruct (decide (k ∈ keys d)) as [Hin|Hout].
  - by rewrite keys_dict_set.
  - rewrite dict_set_fresh by done. unfold keys in *. rewrite fmap_app. simpl.
    apply NoDup_app. split; [done|]. split; [|apply NoDup_singleton].
    intros x Hx Hx'. apply list_elem_of_singleton in Hx'. by subst.
Qed.

Lemma NoDup_keys_dict_update ps d : NoDup (keys d) -> NoDup (keys (dict_update d ps)).
Proof.
  unfold dict_update. revert d. induction ps as [|p ps IH]; simpl; intros d Hnd; [done|].
  apply IH. by apply NoDup_keys_dict_set.
Qed.

Lemma NoDup_keys_fromkeys (ks : list node) (v : T) : NoDup (keys (fromkeys ks v)).
Proof. apply (NoDup_keys_dict_update _ []). constructor. Qed.

Lemma dict_get_update_notin n ps d :
  n ∉ ps.*1 -> dict_get n (dict_update d ps) = dict_get n d.
Proof.
  unfold dict_update. revert d. induction ps as [|[k v] ps IH]; simpl; intros d Hn; [done|].
  apply not_elem_of_cons in Hn as [Hne Hn].
  rewrite IH by done. by apply dict_get_set_ne.
Qed.

Lemma zip_keys_subset {B} n (ks : list node) (vs : list B) :
  n ∈ (zip ks vs).*1 -> n ∈ ks.
Proof.
  revert vs. induction ks as [|k ks IH]; intros [|v vs]; simpl; intros Hn;
    try by apply elem_of_nil in Hn.
  apply elem_of_cons in Hn as [->|Hn]; [apply list_elem_of_here|].
  apply list_elem_of_further. by eapply IH.
Qed.

Lemma component_vector_keys eig argsort (G : graph T) nodelist ps n :
  component_vector eig argsort G nodelist = Ok ps -> n ∈ ps.*1 -> n ∈ nodelist.
Proof.
  unfold component_vector.
  destruct (rev (argsort (eig (adj_matrix G nodelist)).1) !! 0) as [j|]; simpl; [|done].
  destruct (column j _) as [largest|]; simpl; [|done].
  destruct (np_max largest) as [m|]; simpl; [|done].
  intros [= <-]. apply zip_keys_subset.
Qed.

(* The components that do not hold [n] leave its entry as it is. *)
Lemma components_loop_notin eig argsort (G : graph T) n comps :
  n ∉ concat comps ->
  forall c0 c, components_loop eig argsort G comps c0 = Ok c -> dict_get n c = dict_get n c0.
Proof.
  induction comps as [|nodelist comps IH]; simpl; intros Hn c0 c E.
  - by injection E as <-.
  - apply not_elem_of_app in Hn as [Hn1 Hn2].
    destruct (component_vector eig argsort G nodelist) as [ps|] eqn:Eps; simpl in E; [|done].
    rewrite (IH Hn2 _ _ E). apply dict_get_update_notin.
    intros Hin. apply Hn1. by eapply component_vector_keys.
Qed.

Lemma components_loop_app eig argsort (G : graph T) comps1 comps2 c0 c :
  components_loop eig argsort G (comps1 ++ comps2) c0 = Ok c ->
  exists c1, components_loop eig argsort G comps1 c0 = Ok c1 /\
             components_loop eig argsort G comps2 c1 = Ok c.
Proof.
  revert c0. induction comps1 as [|nodelist comps1 IH]; simpl; intros c0 E.
  - by exists c0.
  - destruct (component_vector eig argsort G nodelist) as [ps|]; simpl in *; [|done].
    by apply IH.
Qed.

Lemma components_loop_NoDup eig argsort (G : graph T) comps :
  forall c0 c, NoDup (keys c0) -> components_loop eig argsort G comps c0 = Ok c ->
               NoDup (keys c).
Proof.
  induction comps as [|nodelist comps IH]; simpl; intros c0 c Hnd E.
  - by injection E as <-.
  - destruct (component_vector eig argsort G nodelist) as [ps|]; simpl in E; [|done].
    eapply IH; [|done]. by apply NoDup_keys_dict_update.
Qed.

(* An isolated node as a component of its own: its adjacency matrix is
   the 1 x 1 zero matrix, and what is written for it is the one entry of
   the eigenvector times its own sign. *)
Lemma adj_matrix_isolated (G : graph T) n :
  graph_getitem G n = Ok [] -> adj_matrix G [n] = [[zero]].
Proof.
  unfold graph_getitem, adj_matrix. simpl.
  destruct (assoc n (adj G)) as [nbrs|]; [|done]. by intros [= ->].
Qed.

Lemma component_vector_isolated eig argsort (G : graph T) n lam v :
  graph_getitem G n = Ok [] -> eig [[zero]] = ([lam], [[v]]) -> argsort [lam] = [0] ->
  component_vector eig argsort G [n] = Ok [(n, mul v (np_sign v))].
Proof.
  intros Hg Heig Hsort. unfold component_vector.
  rewrite (adj_matrix_isolated G n Hg), Heig. simpl. by rewrite Hsort.
Qed.

Lemma dict_get_map_values n (f : T -> T) d :
  dict_get n (map (fun p => (p.1, f p.2)) d) = f <$> dict_get n d.
Proof.
  unfold dict_get. induction d as [|[k a] d IH]; simpl; [done|].
  by destruct (Nat.eqb n k).
Qed.

Lemma keys_map_values (f : T -> T) d : keys (map (fun p => (p.1, f p.2)) d) = keys d.
Proof. unfold keys. induction d as [|[k a] d IH]; simpl; by f_equal. Qed.

(* What a call that returns has computed: the assembled vector, divided
   by its norm. *)
Lemma numpy_returns avail cc eig argsort (G : graph T) d :
  eigenvector_centrality_numpy avail cc eig argsort G = Ok d ->
  exists c, components_loop eig argsort G (cc G) (fromkeys (nodes G) zero) = Ok c /\
            NoDup (keys c) /\
            d = map (fun p => (p.1, fdiv p.2 (np_norm (values c)))) c.
Proof.
  unfold eigenvector_centrality_numpy.
  destruct avail; simpl; [|done].
  destruct (is_multigraph_class (gclass G)); [done|].
  destruct (components_loop eig argsort G (cc G) (fromkeys (nodes G) zero)) as [c|] eqn:Ec;
    simpl; [|done].
  intros [= <-]. exists c. split; [done|].
  assert (Hnd : NoDup (keys c)).
  { eapply components_loop_NoDup; [|done]. apply NoDup_keys_fromkeys. }
  split; [done|]. apply dict_of_list_nodup.
  change (NoDup (keys (map (fun p => (p.1, fdiv p.2 (np_norm (values c)))) c))).
  by rewrite (keys_map_values (fun v => fdiv v (np_norm (values c)))).
Qed.

(* No path of the function raises [ZeroDivisionError]. *)
Lemma numpy_no_division_fault avail cc eig argsort (G : graph T) :
  eigenvector_centrality_numpy avail cc eig argsort G <> Raise ZeroDivisionError.
Proof.
  unfold eigenvector_centrality_numpy.
  destruct avail; simpl; [|done].
  destruct (is_multigraph_class (gclass G)); [done|].
  assert (Hloop : forall comps c0,
             components_loop eig argsort G comps c0 <> Raise ZeroDivisionError).
  { induction comps as [|nodelist comps IH]; simpl; intros c0; [done|].
    destruct (component_vector eig argsort G nodelist) as [ps|e] eqn:Eps; simpl; [apply IH|].
    intros [= ->]. revert Eps. unfold component_vector.
    destruct (rev _ !! 0) as [j|]; simpl; [|done].
    destruct (column j _) as [largest|e] eqn:Ecol; simpl.
    - by destruct largest.
    - intros [= ->]. revert Ecol. unfold column. generalize ((eig (adj_matrix G nodelist)).2).
      induction m as [|row m IHm]; simpl; [done|].
      destruct (row !! j); simpl; [|done].
      destruct (rmap_m _ m); simpl; [done|]. intros [= ->]. by apply IHm. }
  specialize (Hloop (cc G) (fromkeys (nodes G) zero)).
  by destruct (components_loop eig argsort G (cc G) (fromkeys (nodes G) zero)).
Qed.
End NumpyFacts.

(** ** The operations on the reals *)

(* The operations of [real_num], by their names on the reals. *)
Ltac real_ops :=
  change (@zero R real_num) with 0%R in *;
  change (@one R real_num) with 1%R in *;
  change (@add R real_num) with Rplus in *;
  change (@sub R real_num) with Rminus in *;
  change (@mul R real_num) with Rmult in *;
  change (@fdiv R real_num) with Rdiv in *;
  change (@fabs R real_num) with Rabs in *;
  change (@fsqrt R real_num) with sqrt in *;
  change (@of_nat R real_num) with INR in *.

Section Reals.
Local Open Scope R_scope.
Implicit Types (d y : dict R) (vs : list R).

Lemma flt_R (x y : R) : flt x y = true <-> x < y.
Proof. simpl. unfold RealNum.ltb. destruct (Rlt_dec x y); split; (done || lra). Qed.

Lemma flt_R_false (x y : R) : flt x y = false <-> y <= x.
Proof. simpl. unfold RealNum.ltb. destruct (Rlt_dec x y); split; (done || lra). Qed.

Lemma feq_R (x y : R) : feq x y = true <-> x = y.
Proof. simpl. unfold RealNum.eqb. destruct (Req_dec_T x y); split; (done || lra). Qed.

Lemma feq_R_false (x y : R) : feq x y = false <-> x <> y.
Proof. simpl. unfold RealNum.eqb. destruct (Req_dec_T x y); split; (done || lra). Qed.

Lemma fold_left_Rplus vs (a : R) : fold_left Rplus vs a = a + RealNum.sum vs.
Proof.
  revert a. induction vs as [|v vs IH]; intros a; simpl; [lra|].
  rewrite IH. lra.
Qed.

Lemma pysum_R vs : pysum vs = RealNum.sum vs.
Proof. unfold pysum. simpl. rewrite fold_left_Rplus. lra. Qed.

Lemma rmap_m_pysq_R vs : rmap_m pysq vs = Ok (map (fun v => v * v) vs).
Proof. apply (rmap_m_ok_map (fun v : R => v * v)). Qed.

Lemma sum_squares_nonneg vs : 0 <= RealNum.sum (map (fun v => v * v) vs).
Proof. induction vs as [|v vs IH]; simpl; [lra|]. nra. Qed.

Lemma sum_squares_zero vs :
  RealNum.sum (map (fun v => v * v) vs) = 0 -> Forall (fun v => v = 0) vs.
Proof.
  induction vs as [|v vs IH]; simpl; intros E; [constructor|].
  pose proof (sum_squares_nonneg vs). constructor; [nra|]. apply IH. nra.
Qed.

Lemma euclidean_norm_R d :
  euclidean_norm d = Ok (sqrt (RealNum.sum (map (fun v => v * v) (values d)))).
Proof.
  unfold euclidean_norm, sum_of_squares. rewrite rmap_m_pysq_R. simpl.
  unfold pysqrt. rewrite pysum_R.
  pose proof (sum_squares_nonneg (values d)).
  by rewrite (proj2 (flt_R_false _ _)).
Qed.

(* The scaled vector has norm 1, unless the product was the zero vector
   and the factor 1. *)
Lemma normalised_R y s :
  scale_factor y = Ok s ->
  euclidean_norm (scale_dict s y) = Ok 1 \/
  (s = 1 /\ Forall (fun v => v = 0) (values y)).
Proof.
  unfold scale_factor. rewrite euclidean_norm_R. simpl.
  set (S := RealNum.sum (map (fun v => v * v) (values y))).
  pose proof (sum_squares_nonneg (values y)) as HS. fold S in HS.
  unfold RealNum.eqb. destruct (Req_dec_T (sqrt S) 0) as [E0|Hne]; intros [= <-].
  - right. split; [done|]. apply sum_squares_zero. fold S.
    by apply sqrt_eq_0.
  - left. rewrite euclidean_norm_R. f_equal.
    rewrite values_scale_dict.
    assert (E : forall vs (c : R),
               RealNum.sum (map (fun v => v * v) (map (fun v => mul v c) vs))
               = c * c * RealNum.sum (map (fun v => v * v) vs)).
    { induction vs as [|v vs IH]; intros c; simpl; [lra|]. rewrite IH. lra. }
    rewrite E. fold S.
    assert (HS' : 0 < S).
    { destruct HS as [?|<-]; [done|]. by rewrite sqrt_0 in Hne. }
    assert (Hone : 1 / sqrt S * (1 / sqrt S) * S = 1).
    { rewrite <- (sqrt_sqrt S) at 3 by lra. field. done. }
    rewrite Hone. apply sqrt_1.
Qed.

(** *** Graphs with no edge *)

Lemma edgeless_getitem {T} (G : graph T) n :
  Forall (fun p => p.2 = []) (adj G) -> n ∈ nodes G -> graph_getitem G n = Ok [].
Proof.
  unfold graph_getitem, nodes. intros He Hn.
  destruct (assoc_is_Some n (adj G) Hn) as [nbrs E]. rewrite E.
  apply assoc_Some_elem in E.
  rewrite Forall_forall in He. specialize (He _ E). simpl in He. by subst.
Qed.

Lemma matvec_edgeless {T} `{PyNum T} (G : graph T) (prev : dict T) :
  edgeless G -> (forall n, n ∈ keys prev -> n ∈ nodes G) ->
  matvec G prev = Ok (zeros (keys prev)).
Proof.
  intros He Hk. unfold matvec, zeros.
  rewrite (rmap_m_ext _ (fun n => Ok (n, zero))).
  - apply rmap_m_ok_map.
  - intros n Hn. by rewrite (edgeless_getitem G n He (Hk n Hn)).
Qed.

Lemma sum_const {A} (c : R) (xs : list A) :
  RealNum.sum (map (fun _ => c) xs) = INR (length xs) * c.
Proof.
  induction xs as [|x xs IH]; [simpl; lra|].
  cbn [map length RealNum.sum fold_right]. fold (RealNum.sum (map (fun _ => c) xs)).
  rewrite IH, S_INR. lra.
Qed.

Lemma values_zeros (ks : list node) : values (zeros ks) = map (fun _ => 0) ks.
Proof. unfold values, zeros. induction ks; simpl; by f_equal. Qed.

Lemma keys_zeros {T} `{PyNum T} (ks : list node) : keys (zeros ks) = ks.
Proof. apply keys_map_const. Qed.

Lemma scale_factor_zeros (ks : list node) : scale_factor (zeros ks) = Ok 1.
Proof.
  unfold scale_factor. rewrite euclidean_norm_R, values_zeros. cbn [rbind].
  rewrite map_map. rewrite (sum_const (0 * 0)), Rmult_0_r, Rmult_0_r, sqrt_0.
  real_ops. by rewrite (proj2 (feq_R 0 0)).
Qed.

Lemma scale_zeros (ks : list node) : scale_dict 1 (zeros ks) = zeros ks.
Proof.
  unfold scale_dict, zeros. rewrite map_map. apply map_ext. intros k. simpl.
  by rewrite Rmult_0_l.
Qed.

Lemma l1_distance_zeros (prev : dict R) :
  l1_distance (zeros (keys prev)) prev = RealNum.sum (map Rabs (values prev)).
Proof.
  unfold l1_distance. rewrite pysum_R. f_equal.
  unfold values, keys, zeros. induction prev as [|[k v] prev IH]; simpl; [done|].
  f_equal; [|apply IH]. real_ops. unfold Rminus. by rewrite Rplus_0_l, Rabs_Ropp.
Qed.

(* A round on a graph with no edge: the product is the zero vector, the
   guard gives the factor 1, and the error term is the L1 norm of the
   previous vector. *)
Lemma spec_iteration_edgeless (G : graph R) nnodes tol (prev : dict R) :
  edgeless G -> (forall n, n ∈ keys prev -> n ∈ nodes G) ->
  spec_iteration G nnodes tol prev
  = Ok (zeros (keys prev),
        flt (RealNum.sum (map Rabs (values prev))) (INR nnodes * tol)).
Proof.
  intros He Hk. unfold spec_iteration.
  rewrite (matvec_edgeless G prev He Hk). simpl.
  rewrite scale_factor_zeros. simpl. rewrite scale_zeros.
  by rewrite l1_distance_zeros.
Qed.

Lemma spec_power_edgeless (G : graph R) nnodes tol (start : dict R) :
  edgeless G -> (forall n, n ∈ keys start -> n ∈ nodes G) -> 0 < INR nnodes * tol ->
  (forall rounds, spec_power G nnodes tol (S (S rounds)) start = Ok (zeros (keys start))) /\
  spec_power G nnodes tol 1 start
  = if flt (RealNum.sum (map Rabs (values start))) (INR nnodes * tol)
    then Ok (zeros (keys start)) else Raise (NetworkXError failure_message).
Proof.
  intros He Hk Htol.
  assert (H2 : spec_iteration G nnodes tol (zeros (keys start))
               = Ok (zeros (keys start), true)).
  { rewrite spec_iteration_edgeless; [|done|by rewrite keys_zeros].
    rewrite keys_zeros, values_zeros, map_map, (sum_const (Rabs 0)), Rabs_R0, Rmult_0_r.
    by rewrite (proj2 (flt_R _ _) Htol). }
  split.
  - intros rounds. cbn [spec_power]. rewrite (spec_iteration_edgeless _ _ _ _ He Hk).
    cbn [rbind fst snd]. destruct (flt _ _); [done|].
    by rewrite H2.
  - cbn [spec_power]. rewrite (spec_iteration_edgeless _ _ _ _ He Hk).
    cbn [rbind fst snd]. by destruct (flt _ _).
Qed.

Lemma uniform_start_R (G : graph R) :
  adj G <> [] ->
  uniform_start G = Ok (map (fun n => (n, 1 / INR (length (adj G)))) (nodes G)).
Proof.
  intros Hne. unfold uniform_start, pydiv. real_ops.
  rewrite (proj2 (feq_R_false (INR (length (adj G))) 0)).
  - apply (rmap_m_ok_map (fun n : nat => (n, 1 / INR (length (adj G))))).
  - apply not_0_INR. by destruct (adj G).
Qed.

(* The default start vector on the reals, once rescaled: its entries sum to 1. *)
Lemma default_start_R (G : graph R) start :
  adj G <> [] -> uniform_start G = Ok start ->
  exists s, pydiv one (pysum (values start)) = Ok s /\
            keys (scale_dict s start) = nodes G /\
            RealNum.sum (map Rabs (values (scale_dict s start))) = 1.
Proof.
  intros Hne. rewrite (uniform_start_R G Hne). intros [= <-].
  set (N := INR (length (adj G))).
  assert (HN : 0 < N).
  { unfold N. apply lt_0_INR. destruct (adj G); [done|simpl; lia]. }
  assert (Hv : values (map (fun n : nat => (n, 1 / N)) (nodes G))
               = map (fun _ => 1 / N) (nodes G)).
  { unfold values. induction (nodes G); simpl; by f_equal. }
  assert (Hsum : pysum (values (map (fun n : nat => (n, 1 / N)) (nodes G))) = 1).
  { rewrite pysum_R, Hv, sum_const. unfold nodes. rewrite length_fmap. fold N.
    field. lra. }
  exists (1 / 1). unfold pydiv. rewrite Hsum. real_ops.
  rewrite (proj2 (feq_R_false 1 0)) by lra. split; [done|]. split.
  - by rewrite keys_scale_dict, keys_map_const.
  - rewrite values_scale_dict, Hv, !map_map. simpl.
    rewrite (sum_const (Rabs (1 / N * (1 / 1)))). unfold nodes. rewrite length_fmap.
    fold N. rewrite Rabs_pos_eq.
    + field. lra.
    + apply Rmult_le_pos; [|lra]. apply Rlt_le. by apply Rdiv_lt_0_compat; lra.
Qed.

(* The call on a graph with no edge, from the default start vector. *)
Lemma edgeless_run (G : graph R) tol h :
  is_multigraph_class (gclass G) = false -> NoDup (nodes G) -> adj G <> [] ->
  edgeless G -> 0 < tol ->
  (forall rounds, exists l,
      (eigenvector_centrality G (S (S rounds)) tol None h).1 = Ok l /\
      (eigenvector_centrality G (S (S rounds)) tol None h).2 !! l = Some (zeros (nodes G))) /\
  (if flt 1 (INR (number_of_nodes G) * tol)
   then exists l, (eigenvector_centrality G 1 tol None h).1 = Ok l /\
                  (eigenvector_centrality G 1 tol None h).2 !! l = Some (zeros (nodes G))
   else (eigenvector_centrality G 1 tol None h).1 = Raise (NetworkXError failure_message)).
Proof.
  intros Hc Hnd Hne He Htol.
  pose proof (default_start_run G h Hnd) as Hd.
  destruct (uniform_start G) as [u|] eqn:Eu.
  2:{ by rewrite (uniform_start_R G Hne) in Eu. }
  destruct (default_start_R G u Hne Eu) as (s & Hs & Hk & Hsum).
  assert (Hu : NoDup (keys u)) by (by rewrite (uniform_start_keys _ _ Eu)).
  assert (Hx : (h ++ [u]) !! length h = Some u) by (by apply list_lookup_middle).
  assert (HN : 0 < INR (number_of_nodes G) * tol).
  { apply Rmult_lt_0_compat; [|done]. apply lt_0_INR. unfold number_of_nodes.
    destruct (adj G); [done|simpl; lia]. }
  destruct (spec_power_edgeless G (number_of_nodes G) tol (scale_dict s u) He) as [P2 P1];
    [intros n; by rewrite Hk|done|].
  rewrite Hk, Hsum in *. split.
  - intros rounds.
    pose proof (centrality_run G (S (S rounds)) tol None h _ _ u Hc Hd Hx Hu) as Hr.
    cbv zeta in Hr. unfold spec_centrality in Hr. rewrite Hs in Hr.
    cbn [rbind] in Hr. by rewrite P2 in Hr.
  - pose proof (centrality_run G 1 tol None h _ _ u Hc Hd Hx Hu) as Hr.
    cbv zeta in Hr. unfold spec_centrality in Hr. rewrite Hs in Hr.
    cbn [rbind] in Hr. rewrite P1 in Hr. by destruct (flt 1 _).
Qed.
End Reals.

Section RealNumpy.
Local Open Scope R_scope.

Lemma np_sign_R (x : R) :
  np_sign x = 1 /\ 0 < x \/ np_sign x = 0 /\ x = 0 \/ np_sign x = -1 /\ x < 0.
Proof.
  unfold np_sign. real_ops.
  destruct (flt x 0) eqn:E1.
  { right; right. apply flt_R in E1. split; [lra|done]. }
  apply flt_R_false in E1.
  destruct (flt 0 x) eqn:E2.
  { left. apply flt_R in E2. by split. }
  apply flt_R_false in E2. right; left.
  assert (x = 0) as -> by lra. by rewrite (proj2 (feq_R 0 0)).
Qed.

Lemma mul_np_sign (v : R) : v * np_sign v = Rabs v.
Proof.
  destruct (np_sign_R v) as [[-> Hv]|[[-> Hv]|[-> Hv]]].
  - rewrite Rabs_pos_eq; lra.
  - subst. rewrite Rabs_R0. lra.
  - rewrite Rabs_left; lra.
Qed.

Lemma np_norm_R (vs : list R) : np_norm vs = sqrt (RealNum.sum (map (fun v => v * v) vs)).
Proof. unfold np_norm. by rewrite pysum_R. Qed.

Lemma np_norm_pos (vs : list R) (a : R) : a ∈ vs -> a <> 0 -> 0 < np_norm vs.
Proof.
  intros Ha Hne. rewrite np_norm_R. apply sqrt_lt_R0.
  induction vs as [|v vs IH]; [by apply elem_of_nil in Ha|]. simpl.
  pose proof (sum_squares_nonneg vs) as Hs.
  apply elem_of_cons in Ha as [<-|Ha]; [|specialize (IH Ha)]; nra.
Qed.



(* [v.max()] is the largest entry. *)
Lemma np_max_R (l : list R) (m : R) :
  np_max l = Ok m -> m ∈ l /\ Forall (fun v => v <= m) l.
Proof.
  destruct l as [|a l]; [done|]. unfold np_max.
  set (f := fun m b : R => if flt m b then b else m). intros [= <-].
  assert (Hgen : forall l a, (fold_left f l a = a \/ fold_left f l a ∈ l) /\
                             a <= fold_left f l a /\
                             Forall (fun v => v <= fold_left f l a) l).
  { clear. induction l as [|b l IH]; intros a; cbn [fold_left].
    - split; [by left|]. split; [lra|constructor].
    - destruct (IH (f a b)) as (Hin & Hle & Hall).
      assert (Hf : a <= f a b /\ b <= f a b /\ (f a b = a \/ f a b = b)).
      { unfold f. destruct (flt a b) eqn:E.
        - apply flt_R in E. lra.
        - apply flt_R_false in E. lra. }
      destruct Hf as (Ha & Hb & Hab). split; [|split].
      + destruct Hin as [->|?]; [|right; by apply list_elem_of_further].
        destruct Hab as [->| ->]; [by left|right; apply list_elem_of_here].
      + lra.
      + constructor; [lra|done]. }
  destruct (Hgen l a) as (Hin & Hle & Hall). split.
  - destruct Hin as [->|?]; [apply list_elem_of_here|by apply list_elem_of_further].
  - by constructor.
Qed.
End RealNumpy.

(** ** The facts about 0 and 1 in binary64 and on the reals *)

Lemma float_zero_laws : zero_laws float.
Proof. split; reflexivity. Qed.

Lemma real_zero_laws : zero_laws R.
Proof.
  split; real_ops.
  - apply Rplus_0_l.
  - apply Rmult_0_l.
  - apply Rmult_0_l.
  - apply Rminus_diag.
  - apply Rabs_R0.
  - apply sqrt_0.
  - by apply feq_R.
  - apply flt_R_false. apply Rle_refl.
  - done.
Qed.

(** ** Graphs with no edge, for every number type *)

Section NoEdge.
Context {T : Type} `{PyNum T} (HL : zero_laws T).
Implicit Types (d prev start : dict T) (ks : list node).

Lemma pysum_zeros {A} (xs : list A) : pysum (map (fun _ => zero) xs) = zero.
Proof using HL.
  unfold pysum. induction xs as [|x xs IH]; simpl; [done|].
  by rewrite (add_zero_zero T HL).
Qed.

Lemma values_zeros_const ks : values (zeros ks) = map (fun _ => zero) ks.
Proof. unfold values, zeros. induction ks; simpl; by f_equal. Qed.

(* The zero-norm guard: on the zero vector the division faults and the
   factor is 1. *)
Lemma scale_factor_no_edge ks : scale_factor (zeros ks) = Ok one.
Proof using HL.
  unfold scale_factor, euclidean_norm, sum_of_squares.
  rewrite values_zeros_const, rmap_m_map.
  rewrite (rmap_m_ext _ (fun _ => Ok zero)).
  2:{ intros k _. unfold pysq. by rewrite (pow_zero T HL), (mul_zero_zero T HL). }
  rewrite (rmap_m_ok_map (fun _ : node => zero)). cbn [rbind].
  rewrite pysum_zeros. unfold pysqrt. rewrite (flt_zero_zero T HL). cbn [rbind].
  by rewrite (fsqrt_zero T HL), (feq_zero_zero T HL).
Qed.

Lemma scale_one_zeros ks : scale_dict one (zeros ks) = zeros ks.
Proof using HL.
  unfold scale_dict, zeros. rewrite map_map. apply map_ext. intros k. simpl.
  by rewrite (mul_zero_one T HL).
Qed.

Lemma l1_distance_from_zeros prev :
  l1_distance (zeros (keys prev)) prev
  = pysum (map (fun v => fabs (sub zero v)) (values prev)).
Proof.
  unfold l1_distance. f_equal.
  unfold values, keys, zeros. induction prev as [|[k v] prev IH]; simpl; [done|].
  by f_equal.
Qed.

(* A round on a graph with no edge: the product is the zero vector, the
   guard gives the factor 1, and the error term is the distance of the
   previous vector to the zero vector. *)
Lemma spec_iteration_no_edge (G : graph T) nnodes tol prev :
  edgeless G -> (forall n, n ∈ keys prev -> n ∈ nodes G) ->
  spec_iteration G nnodes tol prev
  = Ok (zeros (keys prev),
        flt (pysum (map (fun v => fabs (sub zero v)) (values prev)))
            (mul (of_nat nnodes) tol)).
Proof using HL.
  intros He Hk. unfold spec_iteration.
  rewrite (matvec_edgeless G prev He Hk). cbn [rbind].
  rewrite scale_factor_no_edge. cbn [rbind]. rewrite scale_one_zeros.
  by rewrite l1_distance_from_zeros.
Qed.

(* A round from the zero vector gives it again, with the error term 0. *)
Lemma spec_iteration_zeros (G : graph T) nnodes tol ks :
  edgeless G -> (forall n, n ∈ ks -> n ∈ nodes G) ->
  spec_iteration G nnodes tol (zeros ks)
  = Ok (zeros ks, flt zero (mul (of_nat nnodes) tol)).
Proof using HL.
  intros He Hk. rewrite spec_iteration_no_edge; [|done|by rewrite keys_zeros].
  rewrite keys_zeros, values_zeros_const, map_map.
  rewrite (map_ext _ (fun _ => zero)).
  - by rewrite pysum_zeros.
  - intros k. by rewrite (sub_zero_zero T HL), (fabs_zero T HL).
Qed.

Lemma spec_power_zeros_fails (G : graph T) nnodes tol ks rounds :
  edgeless G -> (forall n, n ∈ ks -> n ∈ nodes G) ->
  flt zero (mul (of_nat nnodes) tol) = false ->
  spec_power G nnodes tol rounds (zeros ks) = Raise (NetworkXError failure_message).
Proof using HL.
  intros He Hk Hb. induction rounds as [|rounds IH]; [done|].
  cbn [spec_power]. rewrite (spec_iteration_zeros _ _ _ _ He Hk), Hb. exact IH.
Qed.

Lemma spec_power_no_edge (G : graph T) nnodes tol start :
  edgeless G -> (forall n, n ∈ keys start -> n ∈ nodes G) ->
  let err := pysum (map (fun v => fabs (sub zero v)) (values start)) in
  let bound := mul (of_nat nnodes) tol in
  (flt err bound = true ->
     forall rounds, spec_power G nnodes tol (S rounds) start = Ok (zeros (keys start))) /\
  (flt err bound = false ->
     spec_power G nnodes tol 1 start = Raise (NetworkXError failure_message)) /\
  (flt zero bound = true ->
     forall rounds, spec_power G nnodes tol (S (S rounds)) start = Ok (zeros (keys start))) /\
  (flt err bound = false -> flt zero bound = false ->
     forall rounds, spec_power G nnodes tol rounds start
                    = Raise (NetworkXError failure_message)).
Proof using HL.
  intros He Hk. cbv zeta. split; [|split; [|split]].
  - intros Hb rounds. cbn [spec_power].
    rewrite (spec_iteration_no_edge _ _ _ _ He Hk). cbn [rbind fst snd]. by rewrite Hb.
  - intros Hb. cbn [spec_power].
    rewrite (spec_iteration_no_edge _ _ _ _ He Hk). cbn [rbind fst snd]. by rewrite Hb.
  - intros Hb rounds. cbn [spec_power].
    rewrite (spec_iteration_no_edge _ _ _ _ He Hk). cbn [rbind fst snd].
    destruct (flt (pysum _) _); [done|].
    rewrite (spec_iteration_zeros _ _ _ _ He Hk). cbn [rbind fst snd]. by rewrite Hb.
  - intros Hb Hz [|rounds]; [done|]. cbn [spec_power].
    rewrite (spec_iteration_no_edge _ _ _ _ He Hk). cbn [rbind fst snd]. rewrite Hb.
    by apply spec_power_zeros_fails.
Qed.
End NoEdge.

(** ** What the code reads of the graph *)

Section GraphReads.
Context {T : Type} `{PyNum T}.





(* The start vector of a call, as an object of the store. *)
Lemma start_object (G : graph T) (nstart : option loc) (h : store T) (start : dict T) :
  NoDup (nodes G) -> Forall (fun d => NoDup (keys d)) h ->
  match nstart with
  | None => uniform_start G = Ok start
  | Some l0 => h !! l0 = Some start
  end ->
  exists x h1,
    match nstart with None => default_start G | Some l => ret l end h = (Ok x, h1) /\
    h1 !! x = Some start /\ NoDup (keys start).
Proof.
  intros HG Hh Hstart. destruct nstart as [l0|].
  - exists l0, h. split; [done|]. split; [done|]. by eapply (Forall_lookup_1 _ _ _ _ Hh).
  - exists (length h), (h ++ [start]). pose proof (default_start_run G h HG) as Ed.
    rewrite Hstart in Ed. split; [done|]. split; [by apply list_lookup_middle|].
    by rewrite (uniform_start_keys _ _ Hstart).
Qed.
End GraphReads.

(** ** Runs on the reals at concrete inputs *)

Section RealRuns.
Local Open Scope R_scope.


(* A call on the reals that returns in its first round: from the start
   vector (1, 1) on [arcs34] the product is (3/2, 2), of norm 5/2, the new
   vector (3/5, 4/5), and the error term 2/5. *)
Lemma arcs34_round :
  spec_centrality Inputs.arcs34 1 1 Inputs.ones2 = Ok [(0%nat, 3 / 5); (1%nat, 4 / 5)].
Proof.
  unfold spec_centrality, pydiv. rewrite pysum_R.
  assert (Hsum : RealNum.sum (values Inputs.ones2) = 2) by (simpl; lra).
  rewrite Hsum. real_ops. rewrite (proj2 (feq_R_false 2 0)) by lra. cbn [rbind].
  cbn [spec_power]. unfold spec_iteration.
  assert (Hy : matvec Inputs.arcs34 (scale_dict (1 / 2) Inputs.ones2)
               = Ok [(0%nat, 3 / 2); (1%nat, 2)]).
  { unfold matvec, weighted_sum. simpl. unfold pysum, weight. simpl. real_ops.
    do 3 f_equal; [|do 2 f_equal]; f_equal; lra. }
  rewrite Hy. cbn [rbind].
  assert (Hs : scale_factor [(0%nat, 3 / 2); (1%nat, 2)] = Ok (2 / 5)).
  { unfold scale_factor. rewrite euclidean_norm_R. cbn [rbind].
    assert (E : sqrt (RealNum.sum (map (fun v => v * v)
                                       (values [(0%nat, 3 / 2); (1%nat, 2)]))) = 5 / 2).
    { simpl. rewrite <- (sqrt_square (5 / 2)) by lra. f_equal. lra. }
    rewrite E. real_ops. rewrite (proj2 (feq_R_false (5 / 2) 0)) by lra.
    f_equal. lra. }
  rewrite Hs. cbn [rbind fst snd].
  assert (Hc : scale_dict (2 / 5) [(0%nat, 3 / 2); (1%nat, 2)]
               = [(0%nat, 3 / 5); (1%nat, 4 / 5)]).
  { unfold scale_dict. simpl. real_ops. do 2 f_equal; [|f_equal]; f_equal; lra. }
  rewrite Hc.
  assert (He : flt (l1_distance [(0%nat, 3 / 5); (1%nat, 4 / 5)]
                      (scale_dict (1 / 2) Inputs.ones2))
                   (mul (of_nat (number_of_nodes Inputs.arcs34)) 1) = true).
  { apply flt_R. unfold l1_distance. rewrite pysum_R. simpl. real_ops.
    replace (3 / 5 - 1 * (1 / 2)) with (1 / 10) by lra.
    replace (4 / 5 - 1 * (1 / 2)) with (3 / 10) by lra.
    rewrite !Rabs_pos_eq by lra. lra. }
  by rewrite He.
Qed.

Lemma arcs34_returns :
  exists l, (eigenvector_centrality Inputs.arcs34 1 1 (Some 0%nat) [Inputs.ones2]).1 = Ok l /\
            (eigenvector_centrality Inputs.arcs34 1 1 (Some 0%nat) [Inputs.ones2]).2 !! l
            = Some [(0%nat, 3 / 5); (1%nat, 4 / 5)].
Proof.
  pose proof (centrality_run Inputs.arcs34 1 1 (Some 0%nat) [Inputs.ones2] 0%nat
                [Inputs.ones2] Inputs.ones2 eq_refl eq_refl eq_refl) as Hr.
  cbv zeta in Hr. rewrite arcs34_round in Hr. apply Hr.
  apply (bool_decide_unpack _). vm_compute. reflexivity.
Qed.
End RealRuns.

Lemma path4_closed {T} `{PyNum T} :
  NoDup (nodes (Inputs.path4 (T:=T))) /\
  closed_under (Inputs.path4 (T:=T)) (nodes (Inputs.path4 (T:=T))).
Proof.
  split; [apply (bool_decide_unpack _); vm_compute; reflexivity|].
  intros k Hk. simpl in Hk.
  repeat (apply elem_of_cons in Hk as [->|Hk]); try (by apply elem_of_nil in Hk);
    (eexists; split; [reflexivity|]); intros e He;
    repeat (apply elem_of_cons in He as [->|He]); try (by apply elem_of_nil in He);
    apply (bool_decide_unpack _); vm_compute; reflexivity.
Qed.

(** * The claims of the specification *)

Section Generic.
Context {T : Type} `{PyNum T}.

(** C8: in every round of [eigenvector_centrality] the new vector is the
    matrix-vector product [current[n] = sum over the neighbours b of n of
    previous[b] * weight(n, b)] (weight 1 when the edge has none), then
    scaled by 1 over its Euclidean norm, or by 1 when that norm is exactly
    zero; the new vector is a new object, and the vector read as previous
    is not written while it is produced. *)
Theorem iteration_refines_spec (G : graph T) (nnodes : nat) (tol : T)
    (xlast : loc) (h : store T) (previous : dict T) :
  h !! xlast = Some previous -> NoDup (keys previous) ->
  let run := iteration G nnodes tol xlast h in
  run.1 = rbind (spec_iteration G nnodes tol previous) (fun r => Ok (length h, r.2)) /\
  (forall current b, spec_iteration G nnodes tol previous = Ok (current, b) ->
     run.2 = h ++ [current]) /\
  run.2 !! xlast = Some previous.
Proof.
  intros Hl Hnd. cbv zeta.
  destruct (iteration_run G nnodes tol xlast h previous Hl Hnd) as [E1 E2].
  split; [done|]. split; [done|].
  destruct (iteration_store G nnodes tol xlast h) as [ext ->].
  by apply lookup_app_l_Some.
Qed.

(* The text of the error of a call that exhausts its rounds is the same
   whatever their number. *)
Lemma failure_text_is_constant (G : graph T) nnodes tol rounds x (h : store T) dl msg :
  h !! x = Some dl -> NoDup (keys dl) ->
  (power_iterations G nnodes tol rounds x h).1 = Raise (NetworkXError msg) ->
  msg = failure_message.
Proof.
  intros Hx Hnd Hr. pose proof (power_run G nnodes tol rounds x h dl Hx Hnd) as Hp.
  cbv zeta in Hp. rewrite Hr in Hp.
  destruct (spec_power G nnodes tol rounds dl) as [d|e] eqn:Es.
  - by destruct Hp as (l & ? & _).
  - injection Hp as <-. by apply (spec_power_raises _ _ _ _ _ _ Es).
Qed.


(** C9 (amended): when a caller supplies the start vector [nstart] (the
    graph not a multigraph, the values of sum non-zero),
    [eigenvector_centrality] works on that very object and rescales it in
    place: after the call, whether it returns or raises, each entry of the
    caller's mapping is its original value times 1/sum; the rounds write
    new objects only.  The entries keep their original values only where
    that scaling changes nothing, as when they already sum to 1. *)
Theorem nstart_rescaled_in_place (G : graph T) (max_iter : nat) (tol : T)
    (l : loc) (h : store T) (d : dict T) (s : T) :
  is_multigraph_class (gclass G) = false -> h !! l = Some d -> NoDup (keys d) ->
  pydiv one (pysum (values d)) = Ok s ->
  (exists ext, (eigenvector_centrality G max_iter tol (Some l) h).2
               = <[l := scale_dict s d]> h ++ ext) /\
  (eigenvector_centrality G max_iter tol (Some l) h).2 !! l = Some (scale_dict s d).
Proof.
  intros Hc Hl Hnd Hs.
  pose proof (centrality_store_nstart G max_iter tol l h d Hc Hl Hnd) as Hst.
  rewrite Hs in Hst. destruct Hst as [ext Hext]. split; [by exists ext|].
  rewrite Hext. apply lookup_app_l_Some. apply list_lookup_insert_eq.
  by eapply lookup_lt_Some.
Qed.


(** C4 (amended): on a graph with no edge, from a start vector over nodes
    of the graph (the default one or the caller's) whose L1 normalisation
    succeeds, the first multiplication gives the all-zero vector and the
    zero-norm guard gives the factor 1 instead of a division fault.  The
    error term of that first round is the distance from the zero vector
    to the normalised start vector, [sum |0 - x0[n]|], and not 0: the
    first round returns the zero vector only when that sum is below
    [n*tol].  Otherwise the call fails with [max_iter = 1]; the second
    round has the error term 0 and returns the zero vector when
    [0 < n*tol]; and when [n*tol] is not positive the call fails whatever
    [max_iter] is. *)
Theorem edgeless_graph_converges_in_two_rounds (G : graph T) (tol : T)
    (nstart : option loc) (h : store T) (start : dict T) (s : T) :
  zero_laws T ->
  is_multigraph_class (gclass G) = false -> NoDup (nodes G) ->
  Forall (fun d => NoDup (keys d)) h -> edgeless G ->
  match nstart with
  | None => uniform_start G = Ok start
  | Some l0 => h !! l0 = Some start
  end ->
  (forall n, n ∈ keys start -> n ∈ nodes G) ->
  pydiv one (pysum (values start)) = Ok s ->
  let x0 := scale_dict s start in
  let zero_vector := zeros (keys start) in
  let err := pysum (map (fun v => fabs (sub zero v)) (values x0)) in
  let bound := mul (of_nat (number_of_nodes G)) tol in
  let run := fun max_iter => eigenvector_centrality G max_iter tol nstart h in
  let returns_zeros := fun max_iter =>
    exists l, (run max_iter).1 = Ok l /\ (run max_iter).2 !! l = Some zero_vector in
  (matvec G x0 = Ok zero_vector /\ scale_factor zero_vector = Ok one /\
   l1_distance (scale_dict one zero_vector) x0 = err) /\
  (flt err bound = true -> forall max_iter, 1 <= max_iter -> returns_zeros max_iter) /\
  (flt err bound = false -> (run 1).1 = Raise (NetworkXError failure_message)) /\
  (flt zero bound = true -> forall max_iter, 2 <= max_iter -> returns_zeros max_iter) /\
  (flt err bound = false -> flt zero bound = false ->
     forall max_iter, (run max_iter).1 = Raise (NetworkXError failure_message)).
Proof.
  intros HL Hc HG Hh He Hstart Hk Hs. cbv zeta.
  destruct (start_object G nstart h start HG Hh Hstart) as (x & h1 & Hx0 & Hx & Hnd).
  assert (Hk' : forall n, n ∈ keys (scale_dict s start) -> n ∈ nodes G).
  { intros n. rewrite keys_scale_dict. apply Hk. }
  assert (Hrun : forall max_iter,
             match spec_power G (number_of_nodes G) tol max_iter (scale_dict s start) with
             | Ok d =>
                 exists l, (eigenvector_centrality G max_iter tol nstart h).1 = Ok l /\
                           (eigenvector_centrality G max_iter tol nstart h).2 !! l = Some d
             | Raise e => (eigenvector_centrality G max_iter tol nstart h).1 = Raise e
             end).
  { intros max_iter.
    pose proof (centrality_run G max_iter tol nstart h x h1 start Hc Hx0 Hx Hnd) as Hr.
    cbv zeta in Hr. unfold spec_centrality in Hr. rewrite Hs in Hr. exact Hr. }
  destruct (spec_power_no_edge HL G (number_of_nodes G) tol (scale_dict s start) He Hk')
    as (P1 & P2 & P3 & P4).
  rewrite keys_scale_dict in P1, P3.
  split; [|split; [|split; [|split]]].
  - split; [|split].
    + rewrite (matvec_edgeless G _ He Hk'). by rewrite keys_scale_dict.
    + by apply scale_factor_no_edge.
    + rewrite (scale_one_zeros HL). rewrite <- (keys_scale_dict s start).
      apply l1_distance_from_zeros.
  - intros Hb [|rounds] Hm; [lia|]. specialize (Hrun (S rounds)).
    by rewrite (P1 Hb rounds) in Hrun.
  - intros Hb. specialize (Hrun 1). by rewrite (P2 Hb) in Hrun.
  - intros Hb [|[|rounds]] Hm; [lia|lia|]. specialize (Hrun (S (S rounds))).
    by rewrite (P3 Hb rounds) in Hrun.
  - intros Hb Hz max_iter. specialize (Hrun max_iter).
    by rewrite (P4 Hb Hz max_iter) in Hrun.
Qed.
End Generic.

Lemma iteration_refines_spec_witness :
  let h := [Inputs.start3] in
  let run := iteration Inputs.weighted_path3 3 Inputs.tol_default 0 h in
  matvec Inputs.weighted_path3 Inputs.start3
  = Ok [(0, 1%float); (1, 0.625%float); (2, 0.25%float)] /\
  run = (Ok (1, false),
         [Inputs.start3;
          [(0, 0x1.a8bc441a3d02cp-1%float); (1, 0x1.0975aa906621cp-1%float);
           (2, 0x1.a8bc441a3d02cp-3%float)]]) /\
  run.1 = rbind (spec_iteration Inputs.weighted_path3 3 Inputs.tol_default Inputs.start3)
                (fun r => Ok (1, r.2)) /\
  (forall current b,
     spec_iteration Inputs.weighted_path3 3 Inputs.tol_default Inputs.start3
     = Ok (current, b) ->
     run.2 = h ++ [current]) /\
  run.2 !! 0 = Some Inputs.start3.
Proof.
  split; [vm_compute; reflexivity|]. split; [vm_compute; reflexivity|].
  apply (iteration_refines_spec Inputs.weighted_path3 3 Inputs.tol_default 0
           [Inputs.start3] Inputs.start3).
  - reflexivity.
  - apply (bool_decide_unpack _). vm_compute. reflexivity.
Defined.

(** ** On the reals *)

Section RealClaims.
Local Open Scope R_scope.




(** C2 (amended): for a graph with an isolated node [n],
    [eigenvector_centrality], when it returns, gives [n] the score exactly 0,
    and from the default start vector it raises no division-by-zero fault;
    [eigenvector_centrality_numpy] raises no such fault either, but there
    the isolated node is a component of its own, the 1 x 1 zero matrix:
    it is given the absolute value of the one entry [v] of the
    eigenvector, divided by the global norm, which is not 0 when [v] is not. *)
Theorem isolated_node_scores (G : graph R) (n : node) :
  NoDup (nodes G) -> graph_getitem G n = Ok [] ->
  (forall max_iter tol nstart (h h' : store R) l,
     Forall (fun d => NoDup (keys d)) h ->
     (forall l0 d0, nstart = Some l0 -> h !! l0 = Some d0 -> n ∈ keys d0) ->
     eigenvector_centrality G max_iter tol nstart h = (Ok l, h') ->
     exists d, h' !! l = Some d /\ dict_get n d = Some 0) /\
  (forall max_iter tol (h : store R),
     (eigenvector_centrality G max_iter tol None h).1 <> Raise ZeroDivisionError) /\
  (forall numpy_available connected_components eig argsort before after lam v d,
     connected_components G = before ++ [n] :: after -> n ∉ concat after ->
     eig [[0]] = ([lam], [[v]]) -> argsort [lam] = [0%nat] ->
     eigenvector_centrality_numpy numpy_available connected_components eig argsort G = Ok d ->
     exists c,
       components_loop eig argsort G (connected_components G) (fromkeys (nodes G) 0) = Ok c /\
       dict_get n c = Some (Rabs v) /\
       dict_get n d = Some (Rabs v / np_norm (values c)) /\
       (v <> 0 -> Rabs v / np_norm (values c) <> 0)) /\
  (forall numpy_available connected_components eig argsort,
     eigenvector_centrality_numpy numpy_available connected_components eig argsort G
     <> Raise ZeroDivisionError).
Proof.
  intros HG Hn.
  assert (Hin : n ∈ nodes G).
  { unfold graph_getitem in Hn. destruct (assoc n (adj G)) as [nbrs|] eqn:E; [|done].
    apply assoc_Some_elem in E. unfold nodes. apply list_elem_of_fmap. by exists (n, nbrs). }
  split; [|split; [|split]].
  - intros max_iter tol nstart h h' l Hh Hns Hrun.
    destruct (centrality_returns G max_iter tol nstart h l h' HG Hh Hrun)
      as (start & d & Hstart & Hspec & Hd).
    exists d. split; [done|].
    assert (Hk : n ∈ keys start).
    { destruct nstart as [l0|].
      - by eapply Hns.
      - by rewrite (uniform_start_keys _ _ Hstart). }
    unfold spec_centrality in Hspec.
    destruct (pydiv one (pysum (values start))) as [s0|]; simpl in Hspec; [|done].
    destruct (spec_power_last_round _ _ _ _ _ _ Hspec) as (prev & y & s & Hkp & Hy & _ & ->).
    rewrite keys_scale_dict in Hkp. rewrite <- Hkp in Hk.
    destruct (matvec_lookup G prev y n [] Hy Hk Hn) as (v & Hv & Hget).
    injection Hv as <-. rewrite (dict_get_scale_dict _ s _ _ Hget).
    f_equal. real_ops. unfold pysum. simpl. lra.
  - intros max_iter tol h.
    destruct (is_multigraph_class (gclass G)) eqn:Hc.
    { unfold eigenvector_centrality. by rewrite Hc. }
    assert (Hne : adj G <> []).
    { intros E. unfold nodes in Hin. rewrite E in Hin. by apply elem_of_nil in Hin. }
    pose proof (default_start_run G h HG) as Hd.
    pose proof (uniform_start_R G Hne) as Eu. rewrite Eu in Hd.
    destruct (default_start_R G _ Hne Eu) as (s & Hs & _ & _).
    pose proof (centrality_run G max_iter tol None h _ _ _ Hc Hd
                  (list_lookup_middle _ _ _ _ eq_refl)) as Hr.
    cbv zeta in Hr. unfold spec_centrality in Hr. rewrite Hs in Hr. cbn [rbind] in Hr.
    destruct (spec_power _ _ _ _ _) as [d|e] eqn:Esp.
    + destruct Hr as (l & -> & _); [|done]. by rewrite keys_map_const.
    + rewrite Hr.
      * intros [= ->]. by apply (spec_power_raises _ _ _ _ _ _ Esp).
      * by rewrite keys_map_const.
  - intros avail cc eig argsort before after lam v d Hcc Hafter Heig Hsort Hd.
    destruct (numpy_returns _ _ _ _ _ _ Hd) as (c & Hc & Hnd & ->).
    exists c. split; [done|].
    assert (Hgc : dict_get n c = Some (Rabs v)).
    { change (@zero R real_num) with 0 in Hc. rewrite Hcc in Hc.
      destruct (components_loop_app _ _ _ _ _ _ _ Hc) as (c1 & _ & Hc1).
      cbn [components_loop] in Hc1.
      rewrite (component_vector_isolated (H:=real_num) eig argsort G n lam v Hn Heig Hsort)
        in Hc1.
      cbn [rbind] in Hc1.
      rewrite (components_loop_notin _ _ _ _ _ Hafter _ _ Hc1).
      unfold dict_update. simpl. rewrite dict_get_set_eq. f_equal. apply mul_np_sign. }
    split; [done|]. split.
    + rewrite (dict_get_map_values n (fun a => fdiv a (np_norm (values c)))).
      by rewrite Hgc.
    + intros Hv. assert (HN : 0 < np_norm (values c)).
      { apply (np_norm_pos _ (Rabs v)).
        - apply assoc_Some_elem in Hgc. unfold values. apply list_elem_of_fmap.
          by exists (n, Rabs v).
        - by apply Rabs_no_R0. }
      pose proof (Rabs_pos_lt v Hv).
      apply Rgt_not_eq. by apply Rdiv_lt_0_compat.
  - intros. apply numpy_no_division_fault.
Qed.

(** C10 (amended): the initialization of [eigenvector_centrality] has one
    division that can fault.  Building the default start vector never
    raises: [1.0/len(G)] is evaluated once per node, so not at all for a
    graph with zero nodes.  The division [1.0/sum(x.values())] raises an
    uncaught [ZeroDivisionError], an error outside the declared taxonomy,
    for the graph with zero nodes (the sum over no value is 0) and for a
    supplied start vector whose values sum to 0. *)
Theorem initial_division_faults (G : graph R) (max_iter : nat) (tol : R) (h : store R) :
  (default_start G h).1 = Ok (length h) /\
  (is_multigraph_class (gclass G) = false -> adj G = [] ->
     eigenvector_centrality G max_iter tol None h = (Raise ZeroDivisionError, h ++ [[]])) /\
  (forall l d, is_multigraph_class (gclass G) = false -> h !! l = Some d ->
     pysum (values d) = 0 ->
     eigenvector_centrality G max_iter tol (Some l) h = (Raise ZeroDivisionError, h)).
Proof.
  split; [|split].
  - rewrite default_start_result. destruct (adj G) as [|a adjG] eqn:E.
    + unfold uniform_start, nodes. by rewrite E.
    + rewrite (uniform_start_R G); [done|]. by rewrite E.
  - intros Hc E. unfold eigenvector_centrality. rewrite Hc.
    assert (Hd : default_start G h = (Ok (length h), h ++ [[]])).
    { unfold default_start, nodes. by rewrite E. }
    rewrite (bind_run_ok _ _ _ _ _ Hd).
    rewrite (bind_run_ok _ _ _ _ _
               (dict_values_run _ _ _ (list_lookup_middle h [] [] _ eq_refl))).
    apply bind_run_raise. unfold lift, pydiv.
    change (pysum (values (@nil (nat * R)))) with 0. real_ops.
    by rewrite (proj2 (feq_R 0 0)).
  - intros l d Hc Hl Hsum. unfold eigenvector_centrality. rewrite Hc.
    rewrite (bind_run_ok (ret l) _ h l h eq_refl).
    rewrite (bind_run_ok _ _ _ _ _ (dict_values_run _ _ _ Hl)).
    apply bind_run_raise. unfold lift, pydiv. rewrite Hsum. real_ops.
    by rewrite (proj2 (feq_R 0 0)).
Qed.
End RealClaims.

(** ** On the binary64 numbers *)



Lemma edgeless_graph_converges_in_two_rounds_witness :
  let run := fun max_iter =>
    eigenvector_centrality Inputs.isolated2 max_iter 1%float (Some 0) [Inputs.uneven2] in
  l1_distance (scale_dict 1%float (zeros [0; 1])) (scale_dict 1%float Inputs.uneven2)
  = 5%float /\
  (run 1).1 = Raise (NetworkXError failure_message) /\
  (forall max_iter, 2 <= max_iter ->
     exists l, (run max_iter).1 = Ok l /\
               (run max_iter).2 !! l = Some (zeros (keys Inputs.uneven2))).
Proof.
  destruct (edgeless_graph_converges_in_two_rounds Inputs.isolated2 1%float (Some 0)
              [Inputs.uneven2] Inputs.uneven2 1%float float_zero_laws)
    as ((_ & _ & Herr) & _ & Hfail & Htwo & _).
  - reflexivity.
  - apply (bool_decide_unpack _). vm_compute. reflexivity.
  - apply (bool_decide_unpack _). vm_compute. reflexivity.
  - repeat constructor.
  - reflexivity.
  - intros n Hn. exact Hn.
  - vm_compute. reflexivity.
  - split; [|split].
    + vm_compute. reflexivity.
    + apply Hfail. vm_compute. reflexivity.
    + apply Htwo. vm_compute. reflexivity.
Defined.

(** C4, the claim as stated fails: on the graph of one node and no edge,
    with [max_iter = 1] and the default tolerance, the error term of the
    first round is 1 (not 0), the convergence test fails, and the call
    raises instead of returning the all-zero vector. *)
Lemma edgeless_first_round_does_not_converge :
  (iteration (T:=float) Inputs.single_node 1 Inputs.tol_default 0 [[(0, 1%float)]]).1
    = Ok (1, false) /\
  error_term (T:=float) 1 0 [[(0, 1%float)]; [(0, 0%float)]]
    = (Ok 1%float, [[(0, 1%float)]; [(0, 0%float)]]) /\
  (eigenvector_centrality (T:=float) Inputs.single_node 1 Inputs.tol_default None []).1
    = Raise (NetworkXError failure_message).
Proof. vm_compute. repeat split; reflexivity. Qed.

(** C10, the claim as stated fails: for the graph with zero nodes the
    default start vector is built without any division ([1.0/len(G)] is
    inside a comprehension over no node) and no exception is raised there. *)
Lemma default_start_of_empty_graph_does_not_raise :
  default_start (T:=float) Inputs.empty_graph [] = (Ok 0, [[]]).
Proof. vm_compute. reflexivity. Qed.



Lemma nstart_rescaled_in_place_witness :
  (exists ext,
     (eigenvector_centrality Inputs.path4 1 Inputs.tol_default (Some 0) [Inputs.twos4]).2
     = <[0 := scale_dict 0.125%float Inputs.twos4]> [Inputs.twos4] ++ ext) /\
  (eigenvector_centrality Inputs.path4 1 Inputs.tol_default (Some 0) [Inputs.twos4]).2 !! 0
  = Some (scale_dict 0.125%float Inputs.twos4).
Proof.
  apply (nstart_rescaled_in_place Inputs.path4 1 Inputs.tol_default 0
           [Inputs.twos4] Inputs.twos4 0.125%float).
  - reflexivity.
  - reflexivity.
  - apply (bool_decide_unpack _). vm_compute. reflexivity.
  - vm_compute. reflexivity.
Defined.

(** C9, the claim as stated fails: a caller's start vector [{0: 1.0}]
    holds the same values after the call as before it (its values sum to 1,
    so the scaling by 1/sum changes nothing). *)
Lemma nstart_summing_to_one_keeps_its_values :
  [Inputs.one1] !! 0 = Some Inputs.one1 /\
  (eigenvector_centrality Inputs.single_node 100 Inputs.tol_default (Some 0) [Inputs.one1]).1
  = Ok 2 /\
  (eigenvector_centrality Inputs.single_node 100 Inputs.tol_default (Some 0) [Inputs.one1]).2
    !! 0 = Some Inputs.one1.
Proof. vm_compute. repeat split; reflexivity. Qed.

(** C3: the code departs from the claim.  On [path_graph(4)] with a very
    small tolerance the call fails after [max_iter = 1] round and after
    [max_iter = 2] rounds with the same error, whose text still holds the
    directive [%d] and the source text of the argument meant for it: the
    closing quotes of the message come after [%(i+1)], so no number of
    iterations is reported. *)
Theorem convergence_failure_reports_no_count :
  (eigenvector_centrality (T:=float) Inputs.path4 1 Inputs.tol_tiny None []).1
  = Raise (NetworkXError failure_message) /\
  (eigenvector_centrality (T:=float) Inputs.path4 2 Inputs.tol_tiny None []).1
  = Raise (NetworkXError failure_message) /\
  String.index 0 "%d" failure_message = Some 65 /\
  String.index 0 "%(i+1))" failure_message = Some 80.
Proof. vm_compute. repeat split; reflexivity. Qed.

(** C2, the claim as stated fails: on the graph with the edge 0-1 and
    the isolated node 2, [eigenvector_centrality_numpy] gives the isolated
    node the score 0.707..., the largest of the three, not 0. *)
Lemma isolated_node_has_nonzero_numpy_score :
  eigenvector_centrality_numpy (T:=float) true Inputs.components Inputs.eig_float
    Inputs.argsort_of Inputs.edge_and_isolated
  = Ok [(0, 0.5%float); (1, 0.5%float); (2, 0x1.6a09e667f3bccp-1%float)] /\
  feq 0x1.6a09e667f3bccp-1%float 0%float = false.
Proof. vm_compute. split; reflexivity. Qed.


(** ** The theorems on the reals at concrete inputs *)

Section RealWitnesses.
Local Open Scope R_scope.

Lemma single_node_wf :
  is_multigraph_class (gclass (Inputs.single_node (T:=R))) = false /\
  NoDup (nodes (Inputs.single_node (T:=R))) /\
  adj (Inputs.single_node (T:=R)) <> [] /\
  edgeless (Inputs.single_node (T:=R)).
Proof.
  split; [done|]. split; [apply NoDup_singleton|]. split; [done|].
  constructor; [done|constructor].
Qed.
End RealWitnesses.

Lemma initial_division_faults_witness :
  eigenvector_centrality (T:=R) Inputs.empty_graph 100 1%R None []
  = (Raise ZeroDivisionError, [[]]) /\
  eigenvector_centrality (T:=R) Inputs.single_node 100 1%R (Some 0) [[(0, 0%R)]]
  = (Raise ZeroDivisionError, [[(0, 0%R)]]).
Proof.
  split.
  - apply (proj1 (proj2 (initial_division_faults Inputs.empty_graph 100 1%R [])));
      reflexivity.
  - apply (proj2 (proj2 (initial_division_faults Inputs.single_node 100 1%R [[(0, 0%R)]]))
             0 [(0, 0%R)]).
    + reflexivity.
    + reflexivity.
    + unfold pysum. simpl. lra.
Defined.


Lemma isolated_node_scores_witness :
  (eigenvector_centrality (T:=R) Inputs.edge_and_isolated 100 1%R None []).1
    <> Raise ZeroDivisionError /\
  exists d c,
    eigenvector_centrality_numpy (T:=R) true Inputs.components Inputs.eig_real
      Inputs.argsort_of Inputs.edge_and_isolated = Ok d /\
    dict_get 2 c = Some (Rabs 1) /\
    dict_get 2 d = Some (Rabs 1 / np_norm (values c))%R /\
    (Rabs 1 / np_norm (values c))%R <> 0%R.
Proof.
  assert (Hnd : NoDup (nodes (Inputs.edge_and_isolated (T:=R)))).
  { apply (bool_decide_unpack _). vm_compute. reflexivity. }
  destruct (isolated_node_scores Inputs.edge_and_isolated 2 Hnd eq_refl)
    as (_ & Hb & Hc & _).
  split; [apply Hb|].
  assert (Hr : exists d, eigenvector_centrality_numpy (T:=R) true Inputs.components
                           Inputs.eig_real Inputs.argsort_of Inputs.edge_and_isolated = Ok d)
    by (eexists; reflexivity).
  destruct Hr as [d Hd]. exists d.
  destruct (Hc true Inputs.components Inputs.eig_real Inputs.argsort_of
              [[0; 1]] [] 0%R 1%R d eq_refl) as (c & _ & H1 & H2 & H3).
  - simpl. apply not_elem_of_nil.
  - reflexivity.
  - reflexivity.
  - exact Hd.
  - exists c. split; [exact Hd|]. split; [exact H1|]. split; [exact H2|].
    apply H3. apply R1_neq_R0.
Defined.


(** * Further properties of the code *)

(** ** What a call of [eigenvector_centrality] does to the store *)

Section StoreProperties.
Context {T : Type} `{PyNum T}.
Implicit Types (h : store T) (d : dict T) (x l : loc).

Lemma bind_ok_inv {A B} (m : M T A) (f : A -> M T B) h b h' :
  bind m f h = (Ok b, h') -> exists a h1, m h = (Ok a, h1) /\ f a h1 = (Ok b, h').
Proof.
  unfold bind. destruct (m h) as [[a|e] h1]; [|done]. intros E. by exists a, h1.
Qed.

(* lines 86-98, the part of a round after the new dict is allocated *)
Lemma round_body_only_writes (G : graph T) nnodes tol xlast x :
  only_writes x (multiply G xlast x ;;
                 let* s := norm_factor x in
                 scale x s ;;
                 let* err := error_term x xlast in
                 ret (x, flt err (mul (of_nat nnodes) tol))).
Proof.
  apply only_writes_bind; [apply only_writes_multiply|]. intros _.
  apply only_writes_bind; [apply read_only_writes, read_only_norm_factor|]. intros s.
  apply only_writes_bind; [apply only_writes_scale|]. intros _.
  apply only_writes_bind; [apply read_only_writes, read_only_error_term|]. intros err.
  by apply read_only_writes.
Qed.

(* A round that ends has allocated one dict, the one it hands on. *)
Lemma iteration_ok_inv (G : graph T) nnodes tol xlast h x b h' :
  iteration G nnodes tol xlast h = (Ok (x, b), h') ->
  x = length h /\ exists d, h' = h ++ [d].
Proof.
  unfold iteration. intros E.
  apply bind_ok_inv in E as (ks & h1 & Ek & E).
  pose proof (read_only_dict_keys xlast h) as Hk. rewrite Ek in Hk. simpl in Hk. subst h1.
  apply bind_ok_inv in E as (x0 & h2 & Ea & E). injection Ea as <- <-.
  destruct (round_body_only_writes G nnodes tol xlast (length h) (h ++ [fromkeys ks zero]))
    as [d Hd].
  { rewrite length_app. simpl. lia. }
  rewrite E in Hd. simpl in Hd. rewrite insert_last in Hd. split; [|by exists d].
  apply bind_ok_inv in E as (? & ? & _ & E).
  apply bind_ok_inv in E as (? & ? & _ & E).
  apply bind_ok_inv in E as (? & ? & _ & E).
  apply bind_ok_inv in E as (? & ? & _ & E).
  by injection E as <- _ _.
Qed.

(* A round allocates at most one dict. *)
Lemma iteration_store_bound (G : graph T) nnodes tol xlast h :
  exists ext, (iteration G nnodes tol xlast h).2 = h ++ ext /\ length ext <= 1.
Proof.
  unfold iteration. unfold bind at 1.
  pose proof (read_only_dict_keys xlast h) as Hk.
  destruct (dict_keys xlast h) as [[ks|e] h0]; simpl in Hk; subst h0.
  2:{ exists []. simpl. rewrite app_nil_r. split; [done|lia]. }
  unfold bind at 1. unfold alloc at 1.
  destruct (round_body_only_writes G nnodes tol xlast (length h) (h ++ [fromkeys ks zero]))
    as [d Hd].
  { rewrite length_app. simpl. lia. }
  exists [d]. rewrite Hd. split; [apply insert_last|done].
Qed.

Lemma power_iterations_store_bound (G : graph T) nnodes tol rounds x h :
  exists ext, (power_iterations G nnodes tol rounds x h).2 = h ++ ext /\
              length ext <= rounds.
Proof.
  revert x h. induction rounds as [|rounds IH]; intros x h; simpl.
  - exists []. simpl. rewrite app_nil_r. split; [done|lia].
  - unfold bind. destruct (iteration_store_bound G nnodes tol x h) as (ext & Hext & Hlen).
    destruct (iteration G nnodes tol x h) as [[[x' b]|e] h']; simpl in *; subst h'.
    + destruct b.
      * exists ext. split; [done|lia].
      * destruct (IH x' (h ++ ext)) as (ext' & Hext' & Hlen').
        exists (ext ++ ext'). rewrite Hext', app_assoc. split; [done|].
        rewrite length_app. lia.
    + exists ext. split; [done|lia].
Qed.

(* The rounds return a dict allocated by one of them. *)
Lemma power_iterations_ok_inv (G : graph T) nnodes tol rounds :
  forall x h l h', power_iterations G nnodes tol rounds x h = (Ok l, h') ->
    1 <= rounds /\ length h <= l < length h'.
Proof.
  induction rounds as [|rounds IH]; intros x h l h'; simpl; [done|].
  intros E. apply bind_ok_inv in E as ([x' b] & h1 & Ei & E). simpl in E.
  destruct (iteration_ok_inv _ _ _ _ _ _ _ _ Ei) as (-> & d & ->).
  split; [lia|]. destruct b.
  - injection E as <- <-. rewrite length_app. simpl. lia.
  - apply IH in E as (_ & Hl). rewrite length_app in Hl. simpl in Hl. lia.
Qed.

(* More rounds do not change a call that returns. *)
Lemma power_iterations_more (G : graph T) nnodes tol rounds k :
  forall x h l h', power_iterations G nnodes tol rounds x h = (Ok l, h') ->
    power_iterations G nnodes tol (rounds + k) x h = (Ok l, h').
Proof.
  induction rounds as [|rounds IH]; intros x h l h'; simpl; [done|].
  unfold bind. destruct (iteration G nnodes tol x h) as [[[x' b]|e] h1]; [|done].
  simpl. destruct b; [done|]. apply IH.
Qed.

(* The default start vector is a new dict, or an exception and no dict. *)
Lemma default_start_cases (G : graph T) h :
  (exists e, default_start G h = (Raise e, h)) \/
  (exists D, default_start G h = (Ok (length h), h ++ [D])).
Proof.
  unfold default_start.
  rewrite (bind_run _ _ _ _ _ (start_items_run G h (nodes G))).
  destruct (rmap_m _ (nodes G)) as [items|e]; [right|left].
  - by exists (dict_of_list items).
  - by exists e.
Qed.

(* The store a call leaves: the one it was given, with the caller's start
   vector rewritten, and the dicts it allocated after it. *)
Lemma centrality_store_frame (G : graph T) max_iter tol nstart h :
  exists h1 ext,
    (eigenvector_centrality G max_iter tol nstart h).2 = h1 ++ ext /\
    length ext <= S max_iter /\
    match nstart with
    | None => h1 = h
    | Some l0 => exists d, h1 = <[l0 := d]> h
    end.
Proof.
  unfold eigenvector_centrality.
  destruct (is_multigraph_class (gclass G)).
  { exists h, []. simpl. rewrite app_nil_r. split; [done|]. split; [lia|].
    destruct nstart as [l0|]; [|done].
    destruct (h !! l0) as [d|] eqn:E.
    - exists d. by rewrite list_insert_id.
    - exists []. rewrite list_insert_ge; [done|]. by apply lookup_ge_None. }
  destruct nstart as [l0|].
  - rewrite (bind_run_ok (ret l0) _ h l0 h eq_refl).
    destruct (h !! l0) as [d|] eqn:El0.
    2:{ assert (E : dict_values l0 h = (Raise (InvalidReference l0), h)).
        { unfold dict_values, bind, deref. by rewrite El0. }
        rewrite (bind_run_raise _ _ _ _ _ E). exists h, []. simpl. rewrite app_nil_r.
        split; [done|]. split; [lia|]. exists [].
        rewrite list_insert_ge; [done|]. by apply lookup_ge_None. }
    rewrite (bind_run_ok _ _ _ _ _ (dict_values_run _ _ _ El0)).
    rewrite (bind_run (lift _) _ h _ h eq_refl).
    destruct (pydiv one (pysum (values d))) as [s|e].
    2:{ exists h, []. simpl. rewrite app_nil_r. split; [done|]. split; [lia|].
        exists d. by rewrite list_insert_id. }
    assert (Hlt : l0 < length h) by (by eapply lookup_lt_Some).
    destruct (only_writes_scale l0 s h Hlt) as [d' Hd'].
    unfold bind at 1. destruct (scale l0 s h) as [[[]|e] h2]; simpl in Hd'; subst h2.
    + destruct (power_iterations_store_bound G (number_of_nodes G) tol max_iter l0
                  (<[l0:=d']> h)) as (ext & -> & Hlen).
      exists (<[l0:=d']> h), ext. split; [done|]. split; [lia|]. by exists d'.
    + exists (<[l0:=d']> h), []. simpl. rewrite app_nil_r.
      split; [done|]. split; [lia|]. by exists d'.
  - destruct (default_start_cases G h) as [[e Ed]|[D Ed]].
    { rewrite (bind_run_raise _ _ _ _ _ Ed).
      exists h, []. simpl. rewrite app_nil_r. split; [done|]. split; [lia|done]. }
    rewrite (bind_run_ok _ _ _ _ _ Ed).
    assert (Hx : (h ++ [D]) !! length h = Some D) by (by apply list_lookup_middle).
    rewrite (bind_run_ok _ _ _ _ _ (dict_values_run _ _ _ Hx)).
    rewrite (bind_run (lift _) _ (h ++ [D]) _ (h ++ [D]) eq_refl).
    destruct (pydiv one (pysum (values D))) as [s|e].
    2:{ exists h, [D]. split; [done|]. split; [simpl; lia|done]. }
    destruct (only_writes_scale (length h) s (h ++ [D])) as [d' Hd'].
    { rewrite length_app. simpl. lia. }
    rewrite insert_last in Hd'.
    unfold bind at 1. destruct (scale (length h) s (h ++ [D])) as [[[]|e] h2];
      simpl in Hd'; subst h2.
    + destruct (power_iterations_store_bound G (number_of_nodes G) tol max_iter (length h)
                  (h ++ [d'])) as (ext & -> & Hlen).
      exists h, ([d'] ++ ext). rewrite app_assoc. split; [done|].
      split; [simpl; lia|done].
    + exists h, [d']. split; [done|]. split; [simpl; lia|done].
Qed.

(** X1: a call of [eigenvector_centrality], whether it returns or raises,
    leaves every object of the caller's store other than [nstart] as it
    was; what it builds are new objects, at most one for the default start
    vector and one per round. *)
Theorem caller_objects_untouched (G : graph T) (max_iter : nat) (tol : T)
    (nstart : option loc) (h : store T) (l0 : loc) :
  nstart <> Some l0 -> l0 < length h ->
  (eigenvector_centrality G max_iter tol nstart h).2 !! l0 = h !! l0 /\
  length h <= length (eigenvector_centrality G max_iter tol nstart h).2
           <= length h + S max_iter.
Proof.
  intros Hne Hlt.
  destruct (centrality_store_frame G max_iter tol nstart h) as (h1 & ext & -> & Hlen & Hh1).
  assert (Hl1 : length h1 = length h /\ h1 !! l0 = h !! l0).
  { destruct nstart as [l|]; [|by subst].
    destruct Hh1 as [d ->]. rewrite length_insert. split; [done|].
    apply list_lookup_insert_ne. congruence. }
  destruct Hl1 as [Hl1 Hl2]. rewrite length_app, Hl1. split; [|lia].
  rewrite lookup_app_l by lia. done.
Qed.

(** X2: a call of [eigenvector_centrality] that returns has done at least
    one round and returns a dict it allocated itself: never the caller's
    [nstart], nor any object the store held before the call. *)
Theorem returned_dict_is_new (G : graph T) (max_iter : nat) (tol : T)
    (nstart : option loc) (h h' : store T) (l : loc) :
  eigenvector_centrality G max_iter tol nstart h = (Ok l, h') ->
  1 <= max_iter /\ length h <= l < length h' /\ nstart <> Some l.
Proof.
  unfold eigenvector_centrality.
  destruct (is_multigraph_class (gclass G)); [done|]. intros E.
  apply bind_ok_inv in E as (x & h1 & Es & E).
  apply bind_ok_inv in E as (vs & h2 & Ev & E).
  pose proof (read_only_dict_values x h1) as Hv. rewrite Ev in Hv. simpl in Hv. subst h2.
  assert (Hx : x < length h1).
  { unfold dict_values, bind, deref in Ev. destruct (h1 !! x) eqn:Ex; [|done].
    by eapply lookup_lt_Some. }
  apply bind_ok_inv in E as (s & h2 & El & E). injection El as _ <-.
  apply bind_ok_inv in E as ([] & h2 & Esc & E).
  destruct (only_writes_scale x s h1 Hx) as [d' Hd']. rewrite Esc in Hd'. simpl in Hd'.
  subst h2. apply power_iterations_ok_inv in E as (Hm & Hl).
  rewrite length_insert in Hl.
  assert (Hh : length h <= length h1 /\ (forall l0, nstart = Some l0 -> l0 < length h1)).
  { destruct nstart as [l0|].
    - injection Es as <- <-. split; [done|]. by intros ? [= <-].
    - split; [|done]. destruct (default_start_cases G h) as [[e Ed]|[D Ed]];
        rewrite Ed in Es; [done|]. injection Es as _ <-. rewrite length_app. lia. }
  destruct Hh as [Hh1 Hh2]. split; [done|]. split; [lia|].
  intros E. specialize (Hh2 l E). lia.
Qed.

(** X3: if a call of [eigenvector_centrality] returns within [max_iter]
    rounds, the call with any larger [max_iter] returns the same dict and
    leaves the same store. *)
Theorem more_rounds_same_result (G : graph T) (max_iter k : nat) (tol : T)
    (nstart : option loc) (h h' : store T) (l : loc) :
  eigenvector_centrality G max_iter tol nstart h = (Ok l, h') ->
  eigenvector_centrality G (max_iter + k) tol nstart h = (Ok l, h').
Proof.
  unfold eigenvector_centrality.
  destruct (is_multigraph_class (gclass G)); [done|]. intros E.
  apply bind_ok_inv in E as (x & h1 & Es & E). rewrite (bind_run_ok _ _ _ _ _ Es).
  apply bind_ok_inv in E as (vs & h2 & Ev & E). rewrite (bind_run_ok _ _ _ _ _ Ev).
  apply bind_ok_inv in E as (s & h3 & El & E). rewrite (bind_run_ok _ _ _ _ _ El).
  apply bind_ok_inv in E as ([] & h4 & Esc & E). rewrite (bind_run_ok _ _ _ _ _ Esc).
  by apply power_iterations_more.
Qed.
End StoreProperties.

(** ** The keys of the vectors *)

Section KeyProperties.
Context {T : Type} `{PyNum T}.
Implicit Types (h : store T) (d dl : dict T) (x l : loc) (k n : node).

Lemma rmap_m_ok_elem {A B} (f : A -> result B) (xs : list A) (ys : list B) (a : A) :
  rmap_m f xs = Ok ys -> a ∈ xs -> exists y, f a = Ok y.
Proof.
  revert ys. induction xs as [|x xs IH]; simpl; intros ys E Ha.
  - by apply elem_of_nil in Ha.
  - destruct (f x) as [y|] eqn:Ef; simpl in E; [|done].
    destruct (rmap_m f xs) as [ys'|]; simpl in E; [|done].
    apply elem_of_cons in Ha as [->|Ha]; [by exists y|]. by eapply IH.
Qed.

Lemma assoc_None_notin {A} k (d : list (node * A)) : assoc k d = None -> k ∉ d.*1.
Proof.
  intros E Hin. destruct (assoc_is_Some k d Hin) as [v Hv]. congruence.
Qed.

Lemma dict_get_Some_key k (v : T) d : dict_get k d = Some v -> k ∈ keys d.
Proof.
  intros E. apply assoc_Some_elem in E. unfold keys. apply list_elem_of_fmap.
  by exists (k, v).
Qed.

Lemma spec_power_keys (G : graph T) nnodes tol rounds :
  forall dl d, spec_power G nnodes tol rounds dl = Ok d -> keys d = keys dl.
Proof.
  induction rounds as [|rounds IH]; intros dl d; simpl; [done|].
  destruct (spec_iteration G nnodes tol dl) as [[cur b]|] eqn:Es; simpl; [|done].
  pose proof (spec_iteration_keys _ _ _ _ _ _ Es) as Hk.
  destruct b; [by intros [= <-]|]. intros E. by rewrite (IH _ _ E).
Qed.

(* A product that is computed has found every key in the graph and every
   neighbour in the vector. *)
Lemma matvec_ok_closed (G : graph T) prev y :
  matvec G prev = Ok y -> closed_under G (keys prev).
Proof.
  unfold matvec. intros E k Hk.
  destruct (rmap_m_ok_elem _ _ _ k E Hk) as [kv Hkv].
  destruct (graph_getitem G k) as [nbrs|]; simpl in Hkv; [|done].
  exists nbrs. split; [done|]. intros e He.
  unfold weighted_sum in Hkv.
  destruct (rmap_m (term prev) nbrs) as [ts|] eqn:Et; simpl in Hkv; [|done].
  destruct (rmap_m_ok_elem _ _ _ e Et He) as [t Ht].
  unfold term in Ht. destruct (dict_get e.1 prev) as [a|] eqn:Ea; [|done].
  by eapply dict_get_Some_key.
Qed.

(* A [KeyError] of the product names a key that is no node of the graph,
   or a neighbour that is no key of the vector. *)
Lemma matvec_KeyError (G : graph T) prev k :
  matvec G prev = Raise (KeyError k) -> k ∉ nodes G \/ k ∉ keys prev.
Proof.
  unfold matvec. generalize (keys prev) at 1.
  intros ks. induction ks as [|n ks IH]; simpl; [done|].
  unfold graph_getitem at 1. destruct (assoc n (adj G)) as [nbrs|] eqn:En; simpl.
  2:{ intros [= <-]. left. by apply assoc_None_notin. }
  destruct (weighted_sum prev nbrs) as [v|e] eqn:Ew; simpl.
  - destruct (rmap_m _ ks); simpl; [done|]. intros [= ->]. by apply IH.
  - intros [= ->]. right. unfold weighted_sum in Ew.
    destruct (rmap_m (term prev) nbrs) as [ts|e'] eqn:Et; simpl in Ew; [done|].
    injection Ew as ->. clear -Et. revert Et.
    induction nbrs as [|b nbrs IHn]; simpl; [done|].
    unfold term at 1. destruct (dict_get b.1 prev) eqn:Eb; simpl.
    + destruct (rmap_m (term prev) nbrs); simpl; [done|]. intros [= ->]. by apply IHn.
    + intros [= <-]. by apply assoc_None_notin.
Qed.

Lemma spec_power_KeyError (G : graph T) nnodes tol rounds :
  forall dl k, spec_power G nnodes tol rounds dl = Raise (KeyError k) ->
    k ∉ nodes G \/ k ∉ keys dl.
Proof.
  induction rounds as [|rounds IH]; intros dl k; simpl; [done|].
  destruct (spec_iteration G nnodes tol dl) as [[cur b]|e] eqn:Es; simpl.
  - destruct b; [done|]. intros E.
    rewrite <- (spec_iteration_keys _ _ _ _ _ _ Es). by apply IH.
  - intros [= ->]. unfold spec_iteration in Es.
    destruct (matvec G dl) as [y|e] eqn:Ey; simpl in Es.
    + destruct (scale_factor y) as [s|e] eqn:Esf; simpl in Es; [done|].
      injection Es as ->. by destruct (scale_factor_raises _ _ Esf).
    + injection Es as ->. by apply matvec_KeyError.
Qed.

(* The start vector of a call that got as far as the rounds. *)
Lemma start_keys_returns (G : graph T) nstart h start :
  match nstart with
  | None => uniform_start G = Ok start
  | Some l0 => h !! l0 = Some start
  end -> start_keys G nstart h = Some (keys start).
Proof.
  destruct nstart as [l0|]; simpl.
  - by intros ->.
  - intros E. by rewrite (uniform_start_keys _ _ E).
Qed.

(** X4: the dict a call of [eigenvector_centrality] returns has the keys
    of its start vector, each once: the nodes of [G] for the default start
    vector, the keys of [nstart] otherwise. *)
Theorem returned_dict_has_start_keys (G : graph T) (max_iter : nat) (tol : T)
    (nstart : option loc) (h h' : store T) (l : loc) :
  NoDup (nodes G) -> Forall (fun d => NoDup (keys d)) h ->
  eigenvector_centrality G max_iter tol nstart h = (Ok l, h') ->
  exists d ks, h' !! l = Some d /\ start_keys G nstart h = Some ks /\ keys d ≡ₚ ks.
Proof.
  intros HG Hh Hrun.
  destruct (centrality_returns G max_iter tol nstart h l h' HG Hh Hrun)
    as (start & d & Hstart & Hspec & Hd).
  exists d, (keys start). split; [done|]. split; [by apply start_keys_returns|].
  unfold spec_centrality in Hspec.
  destruct (pydiv one (pysum (values start))) as [s|]; simpl in Hspec; [|done].
  by rewrite (spec_power_keys _ _ _ _ _ _ Hspec), keys_scale_dict.
Qed.

(** X5: a call of [eigenvector_centrality] returns only if the keys of its
    start vector are nodes of [G] and hold every neighbour of each of them. *)
Theorem returning_call_has_closed_start (G : graph T) (max_iter : nat) (tol : T)
    (nstart : option loc) (h h' : store T) (l : loc) :
  NoDup (nodes G) -> Forall (fun d => NoDup (keys d)) h ->
  eigenvector_centrality G max_iter tol nstart h = (Ok l, h') ->
  exists ks, start_keys G nstart h = Some ks /\ closed_under G ks.
Proof.
  intros HG Hh Hrun.
  destruct (centrality_returns G max_iter tol nstart h l h' HG Hh Hrun)
    as (start & d & Hstart & Hspec & Hd).
  exists (keys start). split; [by apply start_keys_returns|].
  unfold spec_centrality in Hspec.
  destruct (pydiv one (pysum (values start))) as [s|]; simpl in Hspec; [|done].
  destruct max_iter as [|rounds]; [done|]. simpl in Hspec.
  unfold spec_iteration in Hspec.
  destruct (matvec G (scale_dict s start)) as [y|] eqn:Ey; simpl in Hspec; [|done].
  rewrite <- (keys_scale_dict s start). by eapply matvec_ok_closed.
Qed.

(** X6: when a call of [eigenvector_centrality] raises [KeyError k], [k] is
    not a node of [G] (a key of [nstart] the graph does not have) or not a
    key of the start vector (a neighbour [nstart] does not cover). *)
Theorem KeyError_names_a_missing_key (G : graph T) (max_iter : nat) (tol : T)
    (nstart : option loc) (h : store T) (k : node) :
  NoDup (nodes G) -> Forall (fun d => NoDup (keys d)) h ->
  (eigenvector_centrality G max_iter tol nstart h).1 = Raise (KeyError k) ->
  exists ks, start_keys G nstart h = Some ks /\ (k ∉ nodes G \/ k ∉ ks).
Proof.
  intros HG Hh Hrun.
  destruct (is_multigraph_class (gclass G)) eqn:Hc.
  { unfold eigenvector_centrality in Hrun. by rewrite Hc in Hrun. }
  assert (Hstart : exists x h1 start,
             match nstart with None => default_start G | Some l => ret l end h = (Ok x, h1) /\
             h1 !! x = Some start /\ NoDup (keys start) /\
             start_keys G nstart h = Some (keys start)).
  { destruct nstart as [l0|].
    - destruct (h !! l0) as [d0|] eqn:El0.
      + exists l0, h, d0. split; [done|]. split; [done|]. split.
        * by eapply (Forall_lookup_1 _ _ _ _ Hh).
        * simpl. by rewrite El0.
      + exfalso. unfold eigenvector_centrality in Hrun. rewrite Hc in Hrun.
        rewrite (bind_run_ok (ret l0) _ h l0 h eq_refl) in Hrun.
        assert (E : dict_values l0 h = (Raise (InvalidReference l0), h)).
        { unfold dict_values, bind, deref. by rewrite El0. }
        by rewrite (bind_run_raise _ _ _ _ _ E) in Hrun.
    - pose proof (default_start_run G h HG) as Ed.
      destruct (uniform_start G) as [start|e] eqn:Eu.
      + exists (length h), (h ++ [start]), start. split; [done|].
        split; [by apply list_lookup_middle|].
        rewrite (uniform_start_keys _ _ Eu). by split.
      + exfalso. unfold eigenvector_centrality in Hrun. rewrite Hc in Hrun.
        rewrite (bind_run_raise _ _ _ _ _ Ed) in Hrun. simpl in Hrun.
        injection Hrun as ->. revert Eu. unfold uniform_start.
        induction (nodes G) as [|n ns IH]; simpl; [done|].
        unfold pydiv at 1. destruct (feq _ _); simpl; [done|].
        destruct (rmap_m _ ns); simpl; [done|]. intros [= E]. apply IH; [|by rewrite E].
        by apply NoDup_cons in HG as [_ ?]. }
  destruct Hstart as (x & h1 & start & Hs & Hx & Hnd & Hks).
  exists (keys start). split; [done|].
  pose proof (centrality_run G max_iter tol nstart h x h1 start Hc Hs Hx Hnd) as Hr.
  cbv zeta in Hr. rewrite Hrun in Hr. unfold spec_centrality in Hr.
  unfold pydiv in Hr. destruct (feq (pysum (values start)) zero); simpl in Hr; [done|].
  destruct (spec_power _ _ _ _ _) as [d|e] eqn:Esp.
  - by destruct Hr as (l & ? & _).
  - injection Hr as <-. rewrite <- (keys_scale_dict (fdiv one (pysum (values start))) start).
    by eapply spec_power_KeyError.
Qed.

(* The default start vector can only fail by the division. *)
Lemma uniform_start_raises (G : graph T) e :
  uniform_start G = Raise e -> e = ZeroDivisionError.
Proof.
  unfold uniform_start. induction (nodes G) as [|n ns IH]; simpl; [done|].
  unfold pydiv at 1. destruct (feq _ _); simpl; [by intros [= <-]|].
  destruct (rmap_m _ ns); simpl; [done|]. intros [= <-]. by apply IH.
Qed.

Lemma rmap_m_all_ok {A B} (f : A -> result B) (xs : list A) :
  (forall a, a ∈ xs -> exists b, f a = Ok b) -> exists ys, rmap_m f xs = Ok ys.
Proof.
  induction xs as [|a xs IH]; simpl; intros Hf; [by eexists|].
  destruct (Hf a) as [b ->]; [apply list_elem_of_here|].
  destruct IH as [ys ->]; [|by eexists].
  intros a' Ha. apply Hf. by apply list_elem_of_further.
Qed.

(* The product is computed when the keys are closed under the graph. *)
Lemma matvec_total (G : graph T) (prev : dict T) :
  closed_under G (keys prev) -> exists r, matvec G prev = Ok r.
Proof.
  intros Hcl. unfold matvec. apply rmap_m_all_ok. intros k Hk.
  destruct (Hcl k Hk) as (nbrs & -> & Hn). simpl. unfold weighted_sum.
  destruct (rmap_m_all_ok (term prev) nbrs) as [ts ->]; [|by eexists].
  intros e He. unfold term.
  destruct (assoc_is_Some e.1 prev (Hn e He)) as [a Ha].
  unfold dict_get. rewrite Ha. by eexists.
Qed.

(* The rounds on keys closed under the graph: no key is missed. *)
Lemma spec_power_closed (G : graph T) nnodes tol rounds :
  forall dl, closed_under G (keys dl) ->
    match spec_power G nnodes tol rounds dl with
    | Ok _ => True
    | Raise e => e = NetworkXError failure_message \/ e = OverflowError \/ e = ValueError
    end.
Proof.
  induction rounds as [|rounds IH]; intros dl Hcl; simpl; [by left|].
  unfold spec_iteration.
  destruct (matvec_total G dl Hcl) as [y Ey]. rewrite Ey. cbn [rbind].
  destruct (scale_factor y) as [s|e] eqn:Es; cbn [rbind fst snd].
  - destruct (flt _ _); [done|]. apply IH.
    by rewrite keys_scale_dict, (matvec_keys G dl y Ey).
  - right. exact (scale_factor_raises _ _ Es).
Qed.

(** X7: on a graph whose neighbours are all nodes, a call of
    [eigenvector_centrality] from the default start vector never raises
    [KeyError]: it returns, or it fails with the convergence error, with
    [ZeroDivisionError] (the initial normalisation), with [OverflowError]
    (a square out of range) or with [ValueError] (the square root). *)
Theorem default_call_raises_no_KeyError (G : graph T) (max_iter : nat) (tol : T)
    (h : store T) :
  is_multigraph_class (gclass G) = false -> NoDup (nodes G) ->
  closed_under G (nodes G) ->
  let run := eigenvector_centrality G max_iter tol None h in
  (exists l d, run.1 = Ok l /\ run.2 !! l = Some d) \/
  run.1 = Raise (NetworkXError failure_message) \/
  run.1 = Raise ZeroDivisionError \/
  run.1 = Raise OverflowError \/
  run.1 = Raise ValueError.
Proof.
  intros Hc HG Hcl. cbv zeta.
  pose proof (default_start_run G h HG) as Hd.
  destruct (uniform_start G) as [u|e] eqn:Eu.
  2:{ right; right; left. unfold eigenvector_centrality. rewrite Hc.
      rewrite (bind_run_raise _ _ _ _ _ Hd). simpl.
      by rewrite (uniform_start_raises G e Eu). }
  assert (Hu : NoDup (keys u)) by (by rewrite (uniform_start_keys _ _ Eu)).
  pose proof (centrality_run G max_iter tol None h _ _ u Hc Hd
                (list_lookup_middle _ _ _ _ eq_refl) Hu) as Hr.
  cbv zeta in Hr. unfold spec_centrality, pydiv in Hr.
  destruct (feq (pysum (values u)) zero); cbn [rbind] in Hr; [by right; right; left|].
  assert (Hcl' : closed_under G (keys (scale_dict (fdiv one (pysum (values u))) u))).
  { by rewrite keys_scale_dict, (uniform_start_keys _ _ Eu). }
  pose proof (spec_power_closed G (number_of_nodes G) tol max_iter _ Hcl') as Hp.
  destruct (spec_power _ _ _ _ _) as [d|e].
  - left. destruct Hr as (l & ? & ?). by exists l, d.
  - rewrite Hr. destruct Hp as [E|[E|E]]; subst e; auto.
Qed.
End KeyProperties.

Lemma caller_objects_untouched_witness :
  (eigenvector_centrality Inputs.path4 1 Inputs.tol_default (Some 0)
     [Inputs.twos4; Inputs.one1]).2 !! 1 = [Inputs.twos4; Inputs.one1] !! 1 /\
  length [Inputs.twos4; Inputs.one1]
  <= length (eigenvector_centrality Inputs.path4 1 Inputs.tol_default (Some 0)
               [Inputs.twos4; Inputs.one1]).2
  <= length [Inputs.twos4; Inputs.one1] + 2.
Proof.
  apply (caller_objects_untouched Inputs.path4 1 Inputs.tol_default (Some 0)
           [Inputs.twos4; Inputs.one1] 1).
  - discriminate.
  - simpl. lia.
Defined.

Lemma returned_dict_is_new_witness :
  1 <= 100 /\
  length [Inputs.twos4; Inputs.one1] <= 15
    < length (eigenvector_centrality Inputs.path4 100 Inputs.tol_default (Some 0)
                [Inputs.twos4; Inputs.one1]).2 /\
  Some 0 <> Some 15.
Proof.
  apply (returned_dict_is_new Inputs.path4 100 Inputs.tol_default (Some 0)
           [Inputs.twos4; Inputs.one1]
           (eigenvector_centrality Inputs.path4 100 Inputs.tol_default (Some 0)
              [Inputs.twos4; Inputs.one1]).2 15).
  vm_compute. reflexivity.
Defined.

Lemma more_rounds_same_result_witness :
  eigenvector_centrality (T:=float) Inputs.single_node (2 + 98) Inputs.tol_default None []
  = (Ok 2, [[(0, 1%float)]; [(0, 0%float)]; [(0, 0%float)]]).
Proof.
  apply (more_rounds_same_result (T:=float) Inputs.single_node 2 98 Inputs.tol_default
           None []).
  vm_compute. reflexivity.
Defined.

Lemma returned_dict_has_start_keys_witness :
  exists d ks,
    (eigenvector_centrality Inputs.path4 100 Inputs.tol_default (Some 0)
       [Inputs.twos4; Inputs.one1]).2 !! 15 = Some d /\
    start_keys Inputs.path4 (Some 0) [Inputs.twos4; Inputs.one1] = Some ks /\
    keys d ≡ₚ ks.
Proof.
  apply (returned_dict_has_start_keys Inputs.path4 100 Inputs.tol_default (Some 0)
           [Inputs.twos4; Inputs.one1]
           (eigenvector_centrality Inputs.path4 100 Inputs.tol_default (Some 0)
              [Inputs.twos4; Inputs.one1]).2 15).
  - apply (bool_decide_unpack _). vm_compute. reflexivity.
  - apply (bool_decide_unpack _). vm_compute. reflexivity.
  - vm_compute. reflexivity.
Defined.

Lemma returning_call_has_closed_start_witness :
  exists ks, start_keys (T:=float) Inputs.path4 None [] = Some ks /\
             closed_under (T:=float) Inputs.path4 ks.
Proof.
  apply (returning_call_has_closed_start (T:=float) Inputs.path4 100 Inputs.tol_default
           None []
           (eigenvector_centrality (T:=float) Inputs.path4 100 Inputs.tol_default None []).2
           14).
  - apply (bool_decide_unpack _). vm_compute. reflexivity.
  - constructor.
  - vm_compute. reflexivity.
Defined.

Lemma KeyError_names_a_missing_key_witness :
  exists ks, start_keys (T:=float) Inputs.path4 (Some 0) [Inputs.one1] = Some ks /\
             (1 ∉ nodes (Inputs.path4 (T:=float)) \/ 1 ∉ ks).
Proof.
  apply (KeyError_names_a_missing_key (T:=float) Inputs.path4 100 Inputs.tol_default
           (Some 0) [Inputs.one1] 1).
  - apply (bool_decide_unpack _). vm_compute. reflexivity.
  - constructor; [|constructor]. apply NoDup_singleton.
  - vm_compute. reflexivity.
Defined.

Lemma default_call_raises_no_KeyError_witness :
  let run := eigenvector_centrality (T:=float) Inputs.path4 100 Inputs.tol_default None [] in
  (exists l d, run.1 = Ok l /\ run.2 !! l = Some d) \/
  run.1 = Raise (NetworkXError failure_message) \/
  run.1 = Raise ZeroDivisionError \/
  run.1 = Raise OverflowError \/
  run.1 = Raise ValueError.
Proof.
  destruct (path4_closed (T:=float)) as [Hnd Hcl].
  exact (default_call_raises_no_KeyError (T:=float) Inputs.path4 100 Inputs.tol_default []
           eq_refl Hnd Hcl).
Defined.

(** ** The power iteration on the reals *)

Section RealProperties.
Local Open Scope R_scope.
Implicit Types (d dl y : dict R) (vs : list R).

Lemma rmap_m_Forall {A B} (f : A -> result B) (P : B -> Prop) (xs : list A) (ys : list B) :
  rmap_m f xs = Ok ys -> (forall x b, x ∈ xs -> f x = Ok b -> P b) -> Forall P ys.
Proof.
  revert ys. induction xs as [|x xs IH]; simpl; intros ys E HP.
  - injection E as <-. constructor.
  - destruct (f x) as [b|] eqn:Ef; simpl in E; [|done].
    destruct (rmap_m f xs) as [ys'|]; simpl in E; [|done].
    injection E as <-. constructor.
    + eapply HP; [apply list_elem_of_here|done].
    + apply IH; [done|]. intros a c Ha. apply HP. by apply list_elem_of_further.
Qed.

(* On the reals the scale factor is always computed, and positive. *)
Lemma scale_factor_pos y : exists s, scale_factor y = Ok s /\ 0 < s.
Proof.
  unfold scale_factor. rewrite euclidean_norm_R. cbn [rbind].
  set (S := RealNum.sum (map (fun v => v * v) (values y))).
  pose proof (sqrt_pos S) as HS. real_ops.
  destruct (feq (sqrt S) 0) eqn:E.
  - exists 1. split; [done|lra].
  - apply feq_R_false in E. exists (1 / sqrt S). split; [done|].
    apply Rdiv_lt_0_compat; lra.
Qed.

Lemma sum_nonneg vs : Forall (fun v => 0 <= v) vs -> 0 <= RealNum.sum vs.
Proof. induction 1; simpl; lra. Qed.

Lemma scale_dict_nonneg (s : R) d :
  0 <= s -> Forall (fun v => 0 <= v) (values d) ->
  Forall (fun v => 0 <= v) (values (scale_dict s d)).
Proof.
  intros Hs Hd. rewrite values_scale_dict. apply Forall_forall. intros v Hv.
  apply list_elem_of_fmap in Hv as (a & -> & Ha). rewrite Forall_forall in Hd.
  real_ops. apply Rmult_le_pos; [by apply Hd|done].
Qed.

(* The product of a non-negative vector, over non-negative weights. *)
Lemma matvec_nonneg (G : graph R) dl y :
  nonneg_weights G -> Forall (fun v => 0 <= v) (values dl) -> matvec G dl = Ok y ->
  Forall (fun v => 0 <= v) (values y).
Proof.
  intros HG Hdl Hy. unfold values. apply Forall_fmap.
  apply (rmap_m_Forall _ _ _ _ Hy). intros k [k' v] _ E. simpl.
  unfold graph_getitem in E. destruct (assoc k (adj G)) as [nbrs|] eqn:Ek; simpl in E; [|done].
  unfold weighted_sum in E.
  destruct (rmap_m (term dl) nbrs) as [ts|] eqn:Et; simpl in E; [|done].
  injection E as _ <-. rewrite pysum_R. apply sum_nonneg.
  apply (rmap_m_Forall _ _ _ _ Et). intros e t He Ht.
  unfold term in Ht. destruct (dict_get e.1 dl) as [a|] eqn:Ea; [|done].
  injection Ht as <-. real_ops. apply Rmult_le_pos.
  - rewrite Forall_forall in Hdl. apply Hdl. apply assoc_Some_elem in Ea.
    unfold values. apply list_elem_of_fmap. by exists (e.1, a).
  - unfold nonneg_weights in HG. rewrite Forall_forall in HG.
    apply assoc_Some_elem in Ek. specialize (HG _ Ek). simpl in HG.
    rewrite Forall_forall in HG. by apply HG.
Qed.

Lemma spec_power_nonneg (G : graph R) nnodes tol rounds :
  nonneg_weights G ->
  forall dl d, Forall (fun v => 0 <= v) (values dl) ->
    spec_power G nnodes tol rounds dl = Ok d -> Forall (fun v => 0 <= v) (values d).
Proof.
  intros HG. induction rounds as [|rounds IH]; intros dl d Hdl; simpl; [done|].
  unfold spec_iteration.
  destruct (matvec G dl) as [y|] eqn:Ey; cbn [rbind]; [|done].
  destruct (scale_factor_pos y) as (s & Hs & Hpos). rewrite Hs. cbn [rbind fst snd].
  assert (Hcur : Forall (fun v => 0 <= v) (values (scale_dict s y))).
  { apply scale_dict_nonneg; [lra|]. by eapply matvec_nonneg. }
  destruct (flt _ _); [by intros [= <-]|]. by apply IH.
Qed.

Lemma uniform_start_nonneg (G : graph R) start :
  uniform_start G = Ok start -> Forall (fun v => 0 <= v) (values start).
Proof.
  intros E. destruct (adj G) as [|a adjG] eqn:Ea.
  - unfold uniform_start, nodes in E. rewrite Ea in E. injection E as <-. constructor.
  - rewrite (uniform_start_R G) in E by (by rewrite Ea). injection E as <-.
    unfold values. rewrite <- list_fmap_compose. apply Forall_fmap, Forall_forall.
    intros n _. simpl. apply Rlt_le, Rdiv_lt_0_compat; [lra|].
    apply lt_0_INR. rewrite Ea. simpl. lia.
Qed.

(** X9: over the reals, on a graph without negative weights,
    [eigenvector_centrality] returns only non-negative scores, from the
    default start vector and from every [nstart] without negative entries. *)
Theorem scores_are_nonnegative (G : graph R) (max_iter : nat) (tol : R)
    (nstart : option loc) (h h' : store R) (l : loc) :
  nonneg_weights G -> NoDup (nodes G) -> Forall (fun d => NoDup (keys d)) h ->
  (forall l0 d0, nstart = Some l0 -> h !! l0 = Some d0 ->
     Forall (fun v => 0 <= v) (values d0)) ->
  eigenvector_centrality G max_iter tol nstart h = (Ok l, h') ->
  exists d, h' !! l = Some d /\ Forall (fun v => 0 <= v) (values d).
Proof.
  intros Hw HG Hh Hns Hrun.
  destruct (centrality_returns G max_iter tol nstart h l h' HG Hh Hrun)
    as (start & d & Hstart & Hspec & Hd).
  exists d. split; [done|].
  assert (Hs0 : Forall (fun v => 0 <= v) (values start)).
  { destruct nstart as [l0|]; [by eapply Hns|by apply (uniform_start_nonneg G)]. }
  unfold spec_centrality, pydiv in Hspec. rewrite pysum_R in Hspec. real_ops.
  destruct (feq (RealNum.sum (values start)) 0) eqn:E; simpl in Hspec; [done|].
  apply feq_R_false in E. pose proof (sum_nonneg _ Hs0) as Hsum.
  eapply (spec_power_nonneg G _ _ _ Hw); [|exact Hspec].
  apply scale_dict_nonneg; [|done]. apply Rlt_le, Rdiv_lt_0_compat; lra.
Qed.

Lemma spec_power_larger_tol (G : graph R) nnodes (tol tol' : R) rounds :
  tol <= tol' ->
  forall dl d, spec_power G nnodes tol rounds dl = Ok d ->
    exists d', spec_power G nnodes tol' rounds dl = Ok d'.
Proof.
  intros Htol. induction rounds as [|rounds IH]; intros dl d; simpl; [done|].
  unfold spec_iteration.
  destruct (matvec G dl) as [y|]; cbn [rbind]; [|done].
  destruct (scale_factor y) as [s|]; cbn [rbind fst snd]; [|done].
  set (err := l1_distance (scale_dict s y) dl). real_ops.
  destruct (flt err (INR nnodes * tol')) eqn:E'; [by eexists|].
  destruct (flt err (INR nnodes * tol)) eqn:E; [|apply IH].
  apply flt_R in E. apply flt_R_false in E'. pose proof (pos_INR nnodes). nra.
Qed.

(** X11: over the reals, if a call of [eigenvector_centrality] returns, the
    same call with a larger tolerance returns too. *)
Theorem larger_tolerance_still_returns (G : graph R) (max_iter : nat) (tol tol' : R)
    (nstart : option loc) (h h' : store R) (l : loc) :
  tol <= tol' -> NoDup (nodes G) -> Forall (fun d => NoDup (keys d)) h ->
  eigenvector_centrality G max_iter tol nstart h = (Ok l, h') ->
  exists l' d', (eigenvector_centrality G max_iter tol' nstart h).1 = Ok l' /\
                (eigenvector_centrality G max_iter tol' nstart h).2 !! l' = Some d'.
Proof.
  intros Htol HG Hh Hrun.
  assert (Hc : is_multigraph_class (gclass G) = false).
  { unfold eigenvector_centrality in Hrun. by destruct (is_multigraph_class (gclass G)). }
  destruct (centrality_returns G max_iter tol nstart h l h' HG Hh Hrun)
    as (start & d & Hstart & Hspec & Hd).
  assert (Hs : exists x h1,
             match nstart with None => default_start G | Some l => ret l end h = (Ok x, h1) /\
             h1 !! x = Some start /\ NoDup (keys start)).
  { destruct nstart as [l0|].
    - exists l0, h. split; [done|]. split; [done|]. by eapply (Forall_lookup_1 _ _ _ _ Hh).
    - simpl in Hstart.
      exists (length h), (h ++ [start]). pose proof (default_start_run G h HG) as Ed.
      rewrite Hstart in Ed. split; [done|]. split; [by apply list_lookup_middle|].
      by rewrite (uniform_start_keys _ _ Hstart). }
  destruct Hs as (x & h1 & Hs & Hx & Hnd).
  pose proof (centrality_run G max_iter tol' nstart h x h1 start Hc Hs Hx Hnd) as Hr.
  cbv zeta in Hr. unfold spec_centrality in Hr, Hspec.
  destruct (pydiv one (pysum (values start))) as [s|]; cbn [rbind] in Hr, Hspec; [|done].
  destruct (spec_power_larger_tol G _ tol tol' max_iter Htol _ _ Hspec) as [d' Ed'].
  rewrite Ed' in Hr. destruct Hr as (l' & ? & ?). by exists l', d'.
Qed.
End RealProperties.

(** ** The vector [eigenvector_centrality_numpy] assembles *)

Section NumpyProperties.
Context {T : Type} `{PyNum T}.
Implicit Types (d c : dict T) (k n : node) (ps : list (node * T)).

Lemma keys_dict_update_in ps d :
  (forall k, k ∈ ps.*1 -> k ∈ keys d) -> keys (dict_update d ps) = keys d.
Proof.
  unfold dict_update. revert d. induction ps as [|[k v] ps IH]; simpl; intros d Hk; [done|].
  assert (Hkd : k ∈ keys d) by (apply Hk; apply list_elem_of_here).
  rewrite IH; [by apply keys_dict_set|].
  intros k' Hk'. rewrite keys_dict_set by done. apply Hk. by apply list_elem_of_further.
Qed.

Lemma components_loop_keys eig argsort (G : graph T) comps :
  forall c0 c, (forall comp n, comp ∈ comps -> n ∈ comp -> n ∈ keys c0) ->
    components_loop eig argsort G comps c0 = Ok c -> keys c = keys c0.
Proof.
  induction comps as [|nodelist comps IH]; simpl; intros c0 c Hin E.
  - by injection E as <-.
  - destruct (component_vector eig argsort G nodelist) as [ps|] eqn:Eps; simpl in E; [|done].
    assert (Hk : keys (dict_update c0 ps) = keys c0).
    { apply keys_dict_update_in. intros k Hk.
      apply (Hin nodelist); [apply list_elem_of_here|]. by eapply component_vector_keys. }
    rewrite <- Hk. apply IH; [|done].
    intros comp n Hc Hn. rewrite Hk. eapply Hin; [|done]. by apply list_elem_of_further.
Qed.

Lemma dict_get_update_in n (v : T) ps d :
  NoDup ps.*1 -> (n, v) ∈ ps -> dict_get n (dict_update d ps) = Some v.
Proof.
  revert d. induction ps as [|[k a] ps IH]; intros d Hnd Hin.
  - by apply elem_of_nil in Hin.
  - change (dict_update d ((k, a) :: ps)) with (dict_update (dict_set k a d) ps).
    simpl in Hnd. apply NoDup_cons in Hnd as [Hk Hnd].
    apply elem_of_cons in Hin as [E|Hin].
    + injection E as -> ->.
      rewrite (dict_get_update_notin k ps (dict_set k a d) Hk). apply dict_get_set_eq.
    + by apply IH.
Qed.

Lemma NoDup_zip_keys {B} (ks : list node) (vs : list B) : NoDup ks -> NoDup (zip ks vs).*1.
Proof.
  revert vs. induction ks as [|k ks IH]; intros [|v vs] Hnd; simpl; try constructor.
  - apply NoDup_cons in Hnd as [Hk _]. intros Hin. apply Hk. by eapply zip_keys_subset.
  - apply IH. by apply NoDup_cons in Hnd as [_ ?].
Qed.

(** X12: when the components list only nodes of [G],
    [eigenvector_centrality_numpy] returns one score per node: the keys of
    its result are the nodes of [G], each once. *)
Theorem numpy_scores_one_per_node (numpy_available : bool)
    (connected_components : graph T -> list (list node))
    (eig : matrix (T:=T) -> list T * matrix (T:=T)) (argsort : list T -> list nat)
    (G : graph T) (d : dict T) :
  NoDup (nodes G) ->
  (forall comp n, comp ∈ connected_components G -> n ∈ comp -> n ∈ nodes G) ->
  eigenvector_centrality_numpy numpy_available connected_components eig argsort G = Ok d ->
  keys d ≡ₚ nodes G.
Proof.
  intros HG Hcc Hd. destruct (numpy_returns _ _ _ _ _ _ Hd) as (c & Hc & _ & ->).
  rewrite (keys_map_values (fun v => fdiv v (np_norm (values c)))).
  assert (Hk0 : keys (fromkeys (nodes G) zero) = nodes G).
  { by rewrite fromkeys_nodup, keys_map_const. }
  assert (Hk : keys c = keys (fromkeys (nodes G) zero)).
  { eapply components_loop_keys; [|exact Hc].
    intros comp n ? ?. rewrite Hk0. by eapply Hcc. }
  by rewrite Hk, Hk0.
Qed.

(** X13: in [eigenvector_centrality_numpy], a node that belongs to one
    component (and to none of the components processed after it) gets the
    entry of that component's signed eigenvector at its position, divided by
    the norm of the whole assembled vector: the other components do not
    change it. *)
Theorem numpy_score_comes_from_own_component (numpy_available : bool)
    (connected_components : graph T -> list (list node))
    (eig : matrix (T:=T) -> list T * matrix (T:=T)) (argsort : list T -> list nat)
    (G : graph T) (before after : list (list node)) (comp : list node)
    (ps : list (node * T)) (n : node) (v : T) (d : dict T) :
  connected_components G = before ++ comp :: after ->
  NoDup comp -> n ∉ concat after ->
  component_vector eig argsort G comp = Ok ps -> (n, v) ∈ ps ->
  eigenvector_centrality_numpy numpy_available connected_components eig argsort G = Ok d ->
  exists c,
    components_loop eig argsort G (connected_components G) (fromkeys (nodes G) zero) = Ok c /\
    dict_get n c = Some v /\
    dict_get n d = Some (fdiv v (np_norm (values c))).
Proof.
  intros Hcc Hnd Hafter Hps Hin Hd.
  destruct (numpy_returns _ _ _ _ _ _ Hd) as (c & Hc & _ & ->).
  exists c. split; [done|].
  assert (Hgc : dict_get n c = Some v).
  { rewrite Hcc in Hc. destruct (components_loop_app _ _ _ _ _ _ _ Hc) as (c1 & _ & Hc1).
    cbn [components_loop] in Hc1. rewrite Hps in Hc1. cbn [rbind] in Hc1.
    rewrite (components_loop_notin _ _ _ _ _ Hafter _ _ Hc1).
    apply dict_get_update_in; [|done].
    assert (Ez : exists vs, ps = zip comp vs).
    { revert Hps. unfold component_vector.
      destruct (rev _ !! 0) as [j|]; simpl; [|done].
      destruct (column j _) as [largest|]; simpl; [|done].
      destruct (np_max largest) as [m|]; simpl; [|done].
      intros [= <-]. by eexists. }
    destruct Ez as [vs ->]. by apply NoDup_zip_keys. }
  split; [done|].
  rewrite (dict_get_map_values n (fun a => fdiv a (np_norm (values c)))).
  by rewrite Hgc.
Qed.
End NumpyProperties.

Section RealNumpyProperties.
Local Open Scope R_scope.

(** X14: the sign convention of [eigenvector_centrality_numpy] makes the
    scores of a component non-negative whenever the selected eigenvector
    has entries of one sign (all non-negative, or all non-positive). *)
Theorem one_signed_eigenvector_is_written_nonnegative
    (eig : matrix (T:=R) -> list R * matrix (T:=R)) (argsort : list R -> list nat)
    (G : graph R) (nodelist : list node) (ps : list (node * R)) :
  component_vector eig argsort G nodelist = Ok ps ->
  (forall j largest,
     rev (argsort (eig (adj_matrix G nodelist)).1) !! 0%nat = Some j ->
     column j (eig (adj_matrix G nodelist)).2 = Ok largest ->
     Forall (fun v => 0 <= v) largest \/ Forall (fun v => v <= 0) largest) ->
  Forall (fun p => 0 <= p.2) ps.
Proof.
  intros Hps Hsign. unfold component_vector in Hps.
  destruct (rev (argsort (eig (adj_matrix G nodelist)).1) !! 0%nat) as [j|] eqn:Ej;
    simpl in Hps; [|done].
  destruct (column j _) as [largest|] eqn:Ecol; simpl in Hps; [|done].
  destruct (np_max largest) as [m|] eqn:Em; simpl in Hps; [|done].
  injection Hps as <-.
  destruct (np_max_R largest m Em) as [Hin Hall].
  assert (Hprod : Forall (fun v => 0 <= v * np_sign m) largest).
  { destruct (Hsign j largest eq_refl Ecol) as [Hpos|Hneg].
    - rewrite Forall_forall in Hpos. apply Forall_forall. intros v Hv.
      pose proof (Hpos v Hv). pose proof (Hpos m Hin).
      destruct (np_sign_R m) as [[-> ?]|[[-> ?]|[-> ?]]]; lra.
    - rewrite Forall_forall in Hneg, Hall. apply Forall_forall. intros v Hv.
      pose proof (Hneg v Hv). pose proof (Hneg m Hin). pose proof (Hall v Hv).
      destruct (np_sign_R m) as [[-> ?]|[[-> ?]|[-> ?]]]; nra. }
  clear -Hprod. revert largest Hprod.
  induction nodelist as [|k ks IH]; intros [|v vs] Hp; simpl; try constructor.
  - simpl. by apply Forall_cons in Hp as [? _].
  - apply IH. by apply Forall_cons in Hp as [_ ?].
Qed.
End RealNumpyProperties.

(** ** The further properties at concrete inputs *)

Lemma scores_are_nonnegative_witness :
  exists l,
    (eigenvector_centrality Inputs.arcs34 1 1%R (Some 0) [Inputs.ones2]).2 !! l
    = Some [(0, (3 / 5)%R); (1, (4 / 5)%R)] /\
    Forall (fun v => (0 <= v)%R) (values [(0, (3 / 5)%R); (1, (4 / 5)%R)]).
Proof.
  destruct arcs34_returns as (l & E1 & E2).
  exists l. split; [exact E2|].
  assert (Hd : exists d,
             (eigenvector_centrality Inputs.arcs34 1 1%R (Some 0) [Inputs.ones2]).2 !! l
             = Some d /\ Forall (fun v => (0 <= v)%R) (values d));
    [|destruct Hd as (d & Hd & Hpos); rewrite E2 in Hd; by injection Hd as <-].
  apply (scores_are_nonnegative Inputs.arcs34 1 1%R (Some 0) [Inputs.ones2]
           (eigenvector_centrality Inputs.arcs34 1 1%R (Some 0) [Inputs.ones2]).2 l).
  - repeat constructor; simpl; lra.
  - apply (bool_decide_unpack _). vm_compute. reflexivity.
  - repeat constructor; [|apply not_elem_of_nil]. simpl.
    rewrite elem_of_cons. intros [?|Hn]; [done|by apply elem_of_nil in Hn].
  - intros l0 d0 [= <-] [= <-]. repeat constructor; simpl; lra.
  - rewrite <- E1. apply surjective_pairing.
Defined.

Lemma larger_tolerance_still_returns_witness :
  exists l' d',
    (eigenvector_centrality (T:=R) Inputs.single_node 2 2%R None []).1 = Ok l' /\
    (eigenvector_centrality (T:=R) Inputs.single_node 2 2%R None []).2 !! l' = Some d'.
Proof.
  destruct single_node_wf as (Hc & Hnd & Hne & He).
  destruct (edgeless_run Inputs.single_node 1%R [] Hc Hnd Hne He Rlt_0_1) as [H2 _].
  destruct (H2 0) as (l & E1 & _).
  apply (larger_tolerance_still_returns Inputs.single_node 2 1%R 2%R None []
           (eigenvector_centrality (T:=R) Inputs.single_node 2 1%R None []).2 l).
  - lra.
  - exact Hnd.
  - constructor.
  - rewrite <- E1. apply surjective_pairing.
Defined.

Lemma numpy_scores_one_per_node_witness :
  exists d,
    eigenvector_centrality_numpy (T:=float) true Inputs.components Inputs.eig_float
      Inputs.argsort_of Inputs.edge_and_isolated = Ok d /\
    keys d ≡ₚ nodes (Inputs.edge_and_isolated (T:=float)).
Proof.
  assert (Hr : exists d, eigenvector_centrality_numpy (T:=float) true Inputs.components
                           Inputs.eig_float Inputs.argsort_of Inputs.edge_and_isolated = Ok d)
    by (eexists; vm_compute; reflexivity).
  destruct Hr as [d Hd]. exists d. split; [exact Hd|].
  apply (numpy_scores_one_per_node (T:=float) true Inputs.components Inputs.eig_float
           Inputs.argsort_of Inputs.edge_and_isolated d).
  - apply (bool_decide_unpack _). vm_compute. reflexivity.
  - intros comp n Hcomp Hn. simpl in Hcomp.
    repeat (apply elem_of_cons in Hcomp as [->|Hcomp]); try (by apply elem_of_nil in Hcomp);
      repeat (apply elem_of_cons in Hn as [->|Hn]); try (by apply elem_of_nil in Hn);
      apply (bool_decide_unpack _); vm_compute; reflexivity.
  - exact Hd.
Defined.

Lemma numpy_score_comes_from_own_component_witness :
  exists d c,
    eigenvector_centrality_numpy (T:=float) true Inputs.components Inputs.eig_float
      Inputs.argsort_of Inputs.edge_and_isolated = Ok d /\
    components_loop Inputs.eig_float Inputs.argsort_of Inputs.edge_and_isolated
      (Inputs.components (Inputs.edge_and_isolated (T:=float)))
      (fromkeys (nodes (Inputs.edge_and_isolated (T:=float))) 0%float) = Ok c /\
    dict_get 0 c = Some (PrimFloat.sqrt 0.5 * 1)%float /\
    dict_get 0 d = Some (PrimFloat.sqrt 0.5 * 1 / np_norm (values c))%float.
Proof.
  assert (Hr : exists d, eigenvector_centrality_numpy (T:=float) true Inputs.components
                           Inputs.eig_float Inputs.argsort_of Inputs.edge_and_isolated = Ok d)
    by (eexists; vm_compute; reflexivity).
  destruct Hr as [d Hd]. exists d.
  destruct (numpy_score_comes_from_own_component (T:=float) true Inputs.components
              Inputs.eig_float Inputs.argsort_of Inputs.edge_and_isolated
              [] [[2]] [0; 1]
              [(0, (PrimFloat.sqrt 0.5 * 1)%float); (1, (PrimFloat.sqrt 0.5 * 1)%float)]
              0 (PrimFloat.sqrt 0.5 * 1)%float d) as (c & Hc & H1 & H2).
  - reflexivity.
  - apply (bool_decide_unpack _). vm_compute. reflexivity.
  - simpl. rewrite elem_of_cons. intros [?|Hn]; [done|by apply elem_of_nil in Hn].
  - vm_compute. reflexivity.
  - apply list_elem_of_here.
  - exact Hd.
  - exists c. split; [exact Hd|]. split; [exact Hc|]. split; [exact H1|exact H2].
Defined.

Lemma one_signed_eigenvector_is_written_nonnegative_witness :
  exists ps,
    component_vector Inputs.eig_real Inputs.argsort_of
      (Inputs.edge_and_isolated (T:=R)) [0; 1] = Ok ps /\
    Forall (fun p => (0 <= p.2)%R) ps.
Proof.
  assert (Hr : exists ps, component_vector Inputs.eig_real Inputs.argsort_of
                            (Inputs.edge_and_isolated (T:=R)) [0; 1] = Ok ps)
    by (eexists; reflexivity).
  destruct Hr as [ps Hps]. exists ps. split; [exact Hps|].
  apply (one_signed_eigenvector_is_written_nonnegative Inputs.eig_real Inputs.argsort_of
           Inputs.edge_and_isolated [0; 1] ps Hps).
  intros j largest Hj Hcol.
  simpl in Hj. injection Hj as <-.
  simpl in Hcol. injection Hcol as <-.
  left. constructor; [apply sqrt_pos|]. constructor; [apply sqrt_pos|]. constructor.
Defined.
